(** * A shallow embedding of [gif.py]: single-image GIF decoding

    The Python source parses the logical screen descriptor, the global
    colour table and the image descriptor out of a byte buffer and then
    runs an LZW decoder over the concatenated data sub-blocks.  The
    embedding keeps Python's dynamic behaviour explicit:

    - Python [int] is [Z]; a [bytes] object is a [list byte];
    - a Python [str] is a list of characters;
    - values stored in heterogeneous lists live in the universe [pyval];
    - exceptions are results [Raise e], threaded through an error monad;
    - local variables that may be unbound are [option]s, and reading an
      unbound one raises [NameError];
    - the sub-block loop is defined by well-founded recursion on the
      distance to the end of the buffer; the decoding loop, which ends
      only because the code width stays positive, is run with fuel that
      is proved sufficient.

    [load_file], which only reads the file from disk, is left out. *)

From Stdlib Require Import ZArith String Ascii Bool Lia List.
From Stdlib Require Import Strings.Byte.
From Equations Require Import Equations.
Import ListNotations.
Open Scope Z_scope.
Set Warnings "-register-all".

(** ** Exceptions and the error monad *)

(** The built-in exceptions the source can raise.  Reading an unbound
    local raises [UnboundLocalError], a subclass of [NameError]. *)
Inductive exn : Set :=
| IndexError
| ValueError
| NameError
| TypeError
| ZeroDivisionError.

Definition exn_name (e : exn) : string :=
  match e with
  | IndexError => "IndexError"
  | ValueError => "ValueError"
  | NameError => "NameError"
  | TypeError => "TypeError"
  | ZeroDivisionError => "ZeroDivisionError"
  end.

Inductive result (A : Type) : Type :=
| Ok (a : A)
| Raise (e : exn).
Arguments Ok {A} a.
Arguments Raise {A} e.

Definition bind {A B} (m : result A) (k : A -> result B) : result B :=
  match m with
  | Ok a => k a
  | Raise e => Raise e
  end.

Notation "x <- m ;; k" := (bind m (fun x => k))
  (at level 61, m at next level, right associativity).

(** [r] fails with the exception whose class is called [name]. *)
Definition fails_with {A} (r : result A) (name : string) : Prop :=
  exists e, r = Raise e /\ exn_name e = name.

(** ** Python sequences *)

Definition str := list ascii.
Definition bytes := list byte.

Definition len {A} (l : list A) : Z := Z.of_nat (List.length l).

Definition byte_val (b : byte) : Z := Z.of_N (Byte.to_N b).

(** Bound of a slice [l[a:b]]: a negative bound counts from the end and
    the result is clamped to [0 .. len l]. *)
Definition slice_bound {A} (l : list A) (i : Z) : nat :=
  let i' := if i <? 0 then i + len l else i in
  Z.to_nat (Z.min (Z.max 0 i') (len l)).

(** [l[a:b]]; never raises. *)
Definition py_slice {A} (l : list A) (a b : Z) : list A :=
  let a' := slice_bound l a in
  let b' := slice_bound l b in
  firstn (b' - a') (skipn a' l).

(** [l[i]]; raises [IndexError] out of range. *)
Definition py_index {A} (l : list A) (i : Z) : result A :=
  let i' := if i <? 0 then i + len l else i in
  if (i' <? 0) || (len l <=? i') then Raise IndexError
  else match nth_error l (Z.to_nat i') with
       | Some x => Ok x
       | None => Raise IndexError
       end.

(** [range(start, stop, step)] for a positive [step]. *)
Definition py_range (start stop step : Z) : list Z :=
  map (fun k => start + step * Z.of_nat k)
      (seq 0 (Z.to_nat ((stop - start + step - 1) / step))).

(** [int.from_bytes(bs, "little")]. *)
Definition int_from_bytes_little (bs : bytes) : Z :=
  fold_right (fun b acc => byte_val b + 256 * acc) 0 bs.

Fixpoint find_from (b : byte) (l : bytes) (i : Z) : Z :=
  match l with
  | [] => -1
  | x :: r => if Byte.eqb x b then i else find_from b r (i + 1)
  end.

(** [data.find(bytes([b]), start)]: lowest index at or after [start]
    holding [b], or [-1]. *)
Definition bytes_find (b : byte) (data : bytes) (start : Z) : Z :=
  let s := slice_bound data start in
  find_from b (skipn s data) (Z.of_nat s).

(** ** Binary strings *)

Fixpoint bin_pos (p : positive) : str :=
  match p with
  | xH => ["1"%char]
  | xO q => bin_pos q ++ ["0"%char]
  | xI q => bin_pos q ++ ["1"%char]
  end.

(** [bin(n)[2:]] for a non-negative [n]: the binary digits of [n] with
    no leading zero. *)
Definition bin_digits (n : N) : str :=
  match n with
  | N0 => ["0"%char]
  | Npos p => bin_pos p
  end.

Definition digit_of (c : ascii) : option Z :=
  let n := Z.of_nat (nat_of_ascii c) in
  if (48 <=? n) && (n <=? 57) then Some (n - 48) else None.

(** [int(c)] for a one-character string [c]. *)
Definition int_char (c : ascii) : result Z :=
  match digit_of c with
  | Some d => Ok d
  | None => Raise ValueError
  end.

Fixpoint int2_acc (acc : Z) (s : str) : result Z :=
  match s with
  | [] => Ok acc
  | c :: r =>
      match digit_of c with
      | Some d => if d <? 2 then int2_acc (2 * acc + d) r else Raise ValueError
      | None => Raise ValueError
      end
  end.

(** [int(s, base=2)] on a string of binary digits; the empty string is
    a [ValueError]. *)
Definition int_base2 (s : str) : result Z :=
  match s with
  | [] => Raise ValueError
  | _ => int2_acc 0 s
  end.

(** ** Python values held in lists *)

Inductive pyval : Type :=
| PInt (z : Z)
| PStr (s : str)
| PList (l : list pyval).

Definition str_lit (s : string) : str := list_ascii_of_string s.

(** [v[0]]. *)
Definition py_first (v : pyval) : result pyval :=
  match v with
  | PList l => py_index l 0
  | PStr s => c <- py_index s 0 ;; Ok (PStr [c])
  | PInt _ => Raise TypeError
  end.

(** [v + [b]]: only a list can be concatenated with a list. *)
Definition py_add_list (v : pyval) (b : pyval) : result pyval :=
  match v with
  | PList l => Ok (PList (l ++ [b]))
  | _ => Raise TypeError
  end.

(** [acc.extend(v)] appends the items obtained by iterating [v]. *)
Definition py_extend (acc : list pyval) (v : pyval) : result (list pyval) :=
  match v with
  | PList l => Ok (acc ++ l)
  | PStr s => Ok (acc ++ map (fun c => PStr [c]) s)
  | PInt _ => Raise TypeError
  end.

(** ** Logical screen descriptor *)

Record screen_descriptor : Type := {
  sd_width : Z;
  sd_height : Z;
  sd_gc_fl : Z;
  sd_cr : Z;
  sd_sort_fl : Z;
  sd_gc_size : Z;
  sd_bcolour_i : Z;
  sd_px_ratio : Z
}.

Definition extract_screen_descriptor (data : bytes) : result screen_descriptor :=
  let width := int_from_bytes_little (py_slice data 6 8) in
  let height := int_from_bytes_little (py_slice data 8 10) in
  bcolour_i <- py_index data 11 ;;
  px_ratio <- py_index data 12 ;;
  b10 <- py_index data 10 ;;
  let packed_field := bin_digits (Byte.to_N b10) in
  c0 <- py_index packed_field 0 ;;
  gc_fl <- int_char c0 ;;
  cr <- int_base2 (py_slice packed_field 1 4) ;;
  c4 <- py_index packed_field 4 ;;
  sort_fl <- int_char c4 ;;
  gc_size <- int_base2 (py_slice packed_field 5 8) ;;
  Ok {| sd_width := width; sd_height := height; sd_gc_fl := gc_fl;
        sd_cr := cr; sd_sort_fl := sort_fl; sd_gc_size := gc_size;
        sd_bcolour_i := byte_val bcolour_i; sd_px_ratio := byte_val px_ratio |}.

(** ** Global colour table *)

Definition table_size_of (sd : screen_descriptor) : Z :=
  3 * 2 ^ (sd_gc_size sd + 1).

Definition extract_global_colour_table (data : bytes) : result (list pyval) :=
  sd <- extract_screen_descriptor data ;;
  let table_size := table_size_of sd in
  let table_bytes := py_slice data 13 (13 + table_size) in
  Ok (map (fun c => PList (map (fun n => PInt (byte_val n))
                               (py_slice table_bytes c (c + 3))))
          (py_range 0 (len table_bytes) 3)).

(** ** Image descriptor *)

Record image_descriptor : Type := {
  id_left : Z;
  id_top : Z;
  id_width : Z;
  id_height : Z;
  id_lc_fl : Z;
  id_itl_fl : Z;
  id_sort_fl : Z;
  id_res : Z;
  id_lc_size : Z
}.

(** The image separator byte [0x2C]. *)
Definition image_separator : byte := x2c.

(** The body of [extract_image_descriptor] once [start] is known. *)
Definition image_descriptor_at (data : bytes) (start : Z) : result image_descriptor :=
  let left := int_from_bytes_little (py_slice data (start + 1) (start + 3)) in
  let top := int_from_bytes_little (py_slice data (start + 3) (start + 5)) in
  let width := int_from_bytes_little (py_slice data (start + 5) (start + 7)) in
  let height := int_from_bytes_little (py_slice data (start + 7) (start + 9)) in
  b9 <- py_index data (start + 9) ;;
  let packed_field := bin_digits (Byte.to_N b9) in
  if list_eq_dec ascii_dec packed_field (str_lit "0") then
    Ok {| id_left := left; id_top := top; id_width := width; id_height := height;
          id_lc_fl := 0; id_itl_fl := 0; id_sort_fl := 0; id_res := 0;
          id_lc_size := 0 |}
  else
    c0 <- py_index packed_field 0 ;;
    lc_fl <- int_char c0 ;;
    c1 <- py_index packed_field 1 ;;
    itl_fl <- int_char c1 ;;
    c2 <- py_index packed_field 2 ;;
    sort_fl <- int_char c2 ;;
    res <- int_base2 (py_slice packed_field 2 4) ;;
    lc_size <- int_base2 (py_slice packed_field 4 7) ;;
    Ok {| id_left := left; id_top := top; id_width := width; id_height := height;
          id_lc_fl := lc_fl; id_itl_fl := itl_fl; id_sort_fl := sort_fl;
          id_res := res; id_lc_size := lc_size |}.

Definition extract_image_descriptor (data : bytes) : result image_descriptor :=
  sd <- extract_screen_descriptor data ;;
  let table_size := table_size_of sd in
  let search_start := 13 + table_size in
  let start := bytes_find image_separator data search_start in
  image_descriptor_at data start.

(** ** Data sub-blocks *)

(** One byte of a sub-block as eight characters, least significant bit
    first. *)
Definition byte_bits (b : byte) : str :=
  let long_byte := bin_digits (Byte.to_N b) in
  let long_byte :=
    if len long_byte <? 8
    then repeat "0"%char (Z.to_nat (8 - len long_byte)) ++ long_byte
    else long_byte in
  rev long_byte.

Definition inspect {A} (a : A) : {b : A | a = b} := exist _ a eq_refl.

(** The [while sub_block_length != 0] loop.  [data_stream] is the list
    of per-block bit strings collected so far. *)
Equations? sub_block_loop (image_bytes : bytes) (sub_block_start : Z)
  (sub_block_length : byte) (data_stream : list str) : result (list str)
  by wf (Z.to_nat (len image_bytes - sub_block_start)) lt :=
  sub_block_loop image_bytes sub_block_start sub_block_length data_stream
    with byte_val sub_block_length =? 0 := {
    | true => Ok data_stream
    | false
        with inspect (py_index image_bytes
                        (sub_block_start + (byte_val sub_block_length + 1))) := {
        | exist _ (Raise e) _ => Raise e
        | exist _ (Ok next_length) Hnext =>
            let sub_block :=
              py_slice image_bytes (sub_block_start + 1)
                       (sub_block_start + byte_val sub_block_length + 1) in
            let stream := concat (map byte_bits sub_block) in
            sub_block_loop image_bytes
              (sub_block_start + (byte_val sub_block_length + 1))
              next_length (data_stream ++ [stream]) } }.
Proof.
  assert (0 <= byte_val sub_block_length)
    by (unfold byte_val; apply N2Z.is_nonneg).
  unfold py_index in Hnext.
  match type of Hnext with
  | (if ?c then _ else _) = _ => destruct c eqn:Hrange; [discriminate|]
  end.
  apply orb_false_iff in Hrange as [_ Hhi].
  apply Z.leb_gt in Hhi.
  destruct (Z.ltb_spec (sub_block_start + (byte_val sub_block_length + 1)) 0);
    unfold len in *; lia.
Qed.

(** ** LZW decoder *)

(** The local variables of the decoding loop.  [code_table], [first]
    and [previous_code] are assigned for the first time inside the loop,
    so they start out unbound. *)
Record lzw_state : Type := {
  start_b : Z;
  count : Z;
  code_size : Z;
  code_table : option (list pyval);
  first : option bool;
  previous_code : option Z;
  image_data : list pyval
}.

(** Reading a local variable. *)
Definition load {A} (v : option A) : result A :=
  match v with
  | Some x => Ok x
  | None => Raise NameError
  end.

Inductive step_out : Type :=
| Continue (s : lzw_state)
| Break.

Section Decoder.

Variable gc_map : list pyval.
Variable min_code_size : Z.
Variable data_stream : str.

Definition cc_index : Z := len gc_map.

(** [code_table] as rebuilt by a Clear code. *)
Definition fresh_code_table : list pyval :=
  map (fun c => PList [c]) gc_map ++ [PStr (str_lit "CC"); PStr (str_lit "EOI")].

Definition init_state : lzw_state :=
  {| start_b := 0; count := 0; code_size := min_code_size + 1;
     code_table := None; first := None; previous_code := None;
     image_data := [] |}.

(** The next [code_size] characters of the stream, reversed and read
    in base 2. *)
Definition read_code (s : lzw_state) : result Z :=
  let reversed_order :=
    py_slice data_stream (start_b s) (start_b s + code_size s) in
  int_base2 (rev reversed_order).

(** The [if/elif/else] chain on [current_code]. *)
Definition lzw_branch (s : lzw_state) (current_code : Z) : result step_out :=
  if current_code =? cc_index then
    Ok (Continue
          {| start_b := start_b s; count := 0; code_size := min_code_size + 1;
             code_table := Some fresh_code_table; first := Some true;
             previous_code := previous_code s; image_data := image_data s |})
  else if current_code =? cc_index + 1 then
    Ok Break
  else
    table <- load (code_table s) ;;
    if current_code <? len table then
      current_color <- py_index table current_code ;;
      image_data' <- py_extend (image_data s) current_color ;;
      is_first <- load (first s) ;;
      if is_first : bool then
        Ok (Continue
              {| start_b := start_b s; count := count s; code_size := code_size s;
                 code_table := Some table; first := Some false;
                 previous_code := previous_code s; image_data := image_data' |})
      else
        b <- py_first current_color ;;
        previous <- load (previous_code s) ;;
        entry <- py_index table previous ;;
        new <- py_add_list entry b ;;
        Ok (Continue
              {| start_b := start_b s; count := count s; code_size := code_size s;
                 code_table := Some (table ++ [new]); first := Some false;
                 previous_code := previous_code s; image_data := image_data' |})
    else
      previous <- load (previous_code s) ;;
      entry <- py_index table previous ;;
      b <- py_first entry ;;
      new <- py_add_list entry b ;;
      image_data' <- py_extend (image_data s) new ;;
      Ok (Continue
            {| start_b := start_b s; count := count s; code_size := code_size s;
               code_table := Some (table ++ [new]); first := first s;
               previous_code := previous_code s; image_data := image_data' |}).

(** The tail of the loop body: count the code, remember it, and widen
    the codes when [count == 2 ** (code_size - 1)].  A negative
    exponent makes the power a fraction, which no [int] equals. *)
Definition lzw_bookkeeping (s : lzw_state) (current_code : Z) : lzw_state :=
  let count' := count s + 1 in
  if (0 <=? code_size s - 1) && (count' =? 2 ^ (code_size s - 1)) then
    {| start_b := start_b s; count := 0; code_size := code_size s + 1;
       code_table := code_table s; first := first s;
       previous_code := Some current_code; image_data := image_data s |}
  else
    {| start_b := start_b s; count := count'; code_size := code_size s;
       code_table := code_table s; first := first s;
       previous_code := Some current_code; image_data := image_data s |}.

Definition advance (s : lzw_state) : lzw_state :=
  {| start_b := start_b s + code_size s; count := count s;
     code_size := code_size s; code_table := code_table s; first := first s;
     previous_code := previous_code s; image_data := image_data s |}.

(** One iteration of [while True]. *)
Definition lzw_step (s : lzw_state) : result step_out :=
  current_code <- read_code s ;;
  out <- lzw_branch (advance s) current_code ;;
  match out with
  | Break => Ok Break
  | Continue s' => Ok (Continue (lzw_bookkeeping s' current_code))
  end.

End Decoder.

(** The [while True] loop.  Its termination rests on [code_size] being
    positive, an invariant of the states the decoder reaches, so the
    loop is run with fuel; [None] means the fuel ran out.  The fuel
    given by [lzw_decode] is shown sufficient in [lzw_decode_terminates]. *)
Fixpoint lzw_loop (gc_map : list pyval) (min_code_size : Z) (data_stream : str)
  (fuel : nat) (s : lzw_state) : option (result (list pyval)) :=
  match fuel with
  | O => None
  | S fuel' =>
      match lzw_step gc_map min_code_size data_stream s with
      | Raise e => Some (Raise e)
      | Ok Break => Some (Ok (image_data s))
      | Ok (Continue s') => lzw_loop gc_map min_code_size data_stream fuel' s'
      end
  end.

Definition lzw_decode (gc_map : list pyval) (min_code_size : Z)
  (data_stream : str) : option (result (list pyval)) :=
  lzw_loop gc_map min_code_size data_stream
           (S (List.length data_stream)) (init_state min_code_size).

(** ** Grid builder *)

(** The [for index, color in enumerate(image_data, start=1)] loop. *)
Fixpoint reshape_loop (width : Z) (items : list pyval) (index : Z)
  (image : list (list pyval)) (row : list pyval) : result (list (list pyval)) :=
  match items with
  | [] => Ok image
  | color :: rest =>
      let row' := row ++ [color] in
      if width =? 0 then Raise ZeroDivisionError
      else if index mod width =? 0
           then reshape_loop width rest (index + 1) (image ++ [row']) []
           else reshape_loop width rest (index + 1) image row'
  end.

Definition reshape (width : Z) (image_data : list pyval) : result (list (list pyval)) :=
  reshape_loop width image_data 1 [] [].

(** ** The whole pipeline *)

(** The part of [extract_image] before the decoding loop: the minimum
    code size and the bit stream of the concatenated sub-blocks. *)
Definition image_data_stream (data : bytes) : result (Z * str) :=
  sd <- extract_screen_descriptor data ;;
  let table_size := table_size_of sd in
  let search_start := 13 + table_size in
  let start := bytes_find image_separator data search_start + 10 in
  (* data[start:] *)
  let image_bytes := py_slice data start (len data) in
  b0 <- py_index image_bytes 0 ;;
  let min_code_size := byte_val b0 in
  sub_block_length <- py_index image_bytes 1 ;;
  streams <- sub_block_loop image_bytes 1 sub_block_length [] ;;
  Ok (min_code_size, concat streams).

Definition extract_image (data : bytes) : option (result (list (list pyval))) :=
  match image_data_stream data with
  | Raise e => Some (Raise e)
  | Ok (min_code_size, data_stream) =>
      match extract_global_colour_table data with
      | Raise e => Some (Raise e)
      | Ok gc_map =>
          match lzw_decode gc_map min_code_size data_stream with
          | None => None
          | Some (Raise e) => Some (Raise e)
          | Some (Ok image_data) =>
              Some (idesc <- extract_image_descriptor data ;;
                    reshape (id_width idesc) image_data)
          end
      end
  end.

(** ** Test inputs *)

(** The minimal 2x2 image: signature, a 2x2 screen with a global colour
    table of four entries (packed byte [0x91]), the colours black, red,
    green, blue, an image descriptor for a 2x2 image, minimum code size
    2, one sub-block of three bytes holding the codes
    Clear, 0, 1, 2, 3, EOI, the block terminator and the trailer. *)
Definition minimal_gif : bytes :=
  [x47; x49; x46; x38; x39; x61;
   x02; x00; x02; x00; x91; x00; x00;
   x00; x00; x00;  xff; x00; x00;  x00; xff; x00;  x00; x00; xff;
   x2c; x00; x00; x00; x00; x02; x00; x02; x00; x00;
   x02; x03; x44; x34; x05; x00;
   x3b].

Definition black : pyval := PList [PInt 0; PInt 0; PInt 0].
Definition red : pyval := PList [PInt 255; PInt 0; PInt 0].
Definition green : pyval := PList [PInt 0; PInt 255; PInt 0].
Definition blue : pyval := PList [PInt 0; PInt 0; PInt 255].


(** The same file cut off inside its only sub-block: the length byte
    announces three bytes and one follows. *)
Definition truncated_gif : bytes := firstn 38 minimal_gif.

(** The minimal image with a complete sub-block that holds the codes
    Clear, 0, 1 and zero padding: no End-of-Information code is ever
    read. *)
Definition unterminated_gif : bytes :=
  firstn 36 minimal_gif ++ [x02; x44; x00; x00; x3b].

(** The minimal image with minimum code size 3 and the codes
    Clear, 0, 8, EOI.  When 8 is read the code table has 6 entries. *)
Definition overshoot_gif : bytes :=
  firstn 35 minimal_gif ++ [x03; x02; x04; x58; x00; x3b].

(** The minimal image whose first code is 0 instead of Clear. *)
Definition unprimed_gif : bytes :=
  firstn 37 minimal_gif ++ [x40; x34; x05; x00; x3b].

(** The minimal image whose first code is End-of-Information. *)
Definition empty_gif : bytes :=
  firstn 36 minimal_gif ++ [x01; x05; x00; x3b].

(** A 16x16 screen with its colour table and the trailer, but no image
    block: the byte [0x2C] does not occur after the colour table. *)
Definition imageless_gif : bytes :=
  [x47; x49; x46; x38; x39; x61;
   x10; x00; x10; x00; x91; x00; x00;
   x00; x00; x00;  xff; x00; x00;  x00; xff; x00;  x00; x00; xff;
   x3b].

(** A file without a global colour table (packed byte [0x70]: flag 0,
    colour resolution 7, no sort, size exponent 0) whose image carries
    a local colour table. *)
Definition local_table_gif : bytes :=
  [x47; x49; x46; x38; x39; x61;
   x02; x00; x02; x00; x70; x00; x00;
   x2c; x00; x00; x00; x00; x02; x00; x02; x00; x81;
   x00; x00; x00;  xff; x00; x00;  x00; xff; x00;  x00; x00; xff;
   x02; x03; x44; x34; x05; x00;
   x3b].

(** The minimal image whose first code is End-of-Information and whose
    image descriptor has the packed byte [0x02]. *)
Definition unreadable_descriptor_gif : bytes :=
  firstn 34 minimal_gif ++ [x02; x02; x01; x05; x00; x3b].

(** ** Reference points for the statements *)

(** The published layout of the packed byte of the logical screen
    descriptor, most significant bit first: one flag bit, three bits of
    colour resolution, one sort bit, three bits of size exponent. *)
Definition published_screen_fields (p : Z) : Z * Z * Z * Z :=
  (Z.land (Z.shiftr p 7) 1,
   Z.land (Z.shiftr p 4) 7,
   Z.land (Z.shiftr p 3) 1,
   Z.land p 7).

Definition screen_fields (sd : screen_descriptor) : Z * Z * Z * Z :=
  (sd_gc_fl sd, sd_cr sd, sd_sort_fl sd, sd_gc_size sd).

(** A thirteen-byte header whose packed byte is [b]. *)
Definition screen_header (b : byte) : bytes :=
  [x47; x49; x46; x38; x39; x61; x02; x00; x02; x00; b; x00; x00].

(** The state after [n] further iterations that did not leave the loop. *)
Fixpoint lzw_run (gc_map : list pyval) (min_code_size : Z) (data_stream : str)
  (n : nat) (s : lzw_state) : option lzw_state :=
  match n with
  | O => Some s
  | S n' =>
      match lzw_step gc_map min_code_size data_stream s with
      | Ok (Continue s') => lzw_run gc_map min_code_size data_stream n' s'
      | _ => None
      end
  end.

(** An iteration that reads [c] in state [s] and continues in [s']. *)
Definition code_step (gc_map : list pyval) (min_code_size : Z) (data_stream : str)
  (c : Z) (s s' : lzw_state) : Prop :=
  read_code data_stream s = Ok c /\
  lzw_step gc_map min_code_size data_stream s = Ok (Continue s').

(** A stretch of iterations none of which reads the Clear code. *)
Inductive run_without_clear (gc_map : list pyval) (min_code_size : Z)
  (data_stream : str) : lzw_state -> lzw_state -> Prop :=
| rwc_refl s : run_without_clear gc_map min_code_size data_stream s s
| rwc_step s c s' s'' :
    code_step gc_map min_code_size data_stream c s s' ->
    c <> cc_index gc_map ->
    run_without_clear gc_map min_code_size data_stream s' s'' ->
    run_without_clear gc_map min_code_size data_stream s s''.

(** Following the chain of sub-blocks from the length byte [L] found at
    [start], some announced payload does not fit in [image_bytes]. *)
Inductive overruns (image_bytes : bytes) : Z -> byte -> Prop :=
| overruns_here start L :
    byte_val L <> 0 ->
    len image_bytes <= start + byte_val L ->
    overruns image_bytes start L
| overruns_later start L L' :
    byte_val L <> 0 ->
    py_index image_bytes (start + (byte_val L + 1)) = Ok L' ->
    overruns image_bytes (start + (byte_val L + 1)) L' ->
    overruns image_bytes start L.

(** An emitted value that is an index into a table of [n] colours. *)
Definition is_colour_index (n : Z) (v : pyval) : Prop :=
  exists i, v = PInt i /\ 0 <= i < n.

(** An emitted value that is an entry of the colour table. *)
Definition is_table_colour (gc_map : list pyval) (v : pyval) : Prop :=
  exists i, 0 <= i < len gc_map /\ py_index gc_map i = Ok v.

(** A code-table entry made of colours of the table. *)
Definition colour_entry (gc_map : list pyval) (v : pyval) : Prop :=
  exists l, v = PList l /\ Forall (fun x => In x gc_map) l.

(** The code table is the fresh table followed by colour entries. *)
Definition table_ok (gc_map : list pyval) (table : list pyval) : Prop :=
  exists extra,
    table = fresh_code_table gc_map ++ extra /\
    Forall (colour_entry gc_map) extra.

(** The invariant of the decoding loop behind C2. *)
Definition emits_table_colours (gc_map : list pyval) (s : lzw_state) : Prop :=
  Forall (fun x => In x gc_map) (image_data s) /\
  (forall table, code_table s = Some table -> table_ok gc_map table).

(** The colour table and the bit stream of [minimal_gif], and the states
    of its decoding after the Clear code and after the three codes that
    follow. *)
Definition minimal_colours : list pyval := [black; red; green; blue].

Definition minimal_stream : str := str_lit "001000100010110010100000".

Definition minimal_after_clear : lzw_state :=
  {| start_b := 3; count := 1; code_size := 3;
     code_table := Some (fresh_code_table minimal_colours);
     first := Some true; previous_code := Some 4; image_data := [] |}.

Definition minimal_after_three : lzw_state :=
  {| start_b := 12; count := 0; code_size := 4;
     code_table := Some (fresh_code_table minimal_colours
                         ++ [PList [black; red]; PList [red; green]]);
     first := Some false; previous_code := Some 2;
     image_data := [black; red; green] |}.

(** The bit stream of [overshoot_gif] and the state in which the code 8
    is read. *)
Definition overshoot_stream : str := str_lit "0010000000011010".

Definition overshoot_before_8 : lzw_state :=
  {| start_b := 8; count := 2; code_size := 4;
     code_table := Some (fresh_code_table minimal_colours);
     first := Some false; previous_code := Some 0; image_data := [black] |}.

(** ** Reading the signature *)

(** The outcome of [bytes.decode("ascii")]: the text, or
    [UnicodeDecodeError] with the position of the first byte that is not
    ASCII. *)
Inductive decoded : Type :=
| Decoded (s : str)
| UnicodeDecodeError (start : Z).

Fixpoint decode_ascii (bs : bytes) (position : Z) : decoded :=
  match bs with
  | [] => Decoded []
  | b :: rest =>
      if byte_val b <? 128 then
        match decode_ascii rest (position + 1) with
        | Decoded s => Decoded (ascii_of_byte b :: s)
        | UnicodeDecodeError start => UnicodeDecodeError start
        end
      else UnicodeDecodeError position
  end.

Definition extract_header (data : bytes) : decoded :=
  decode_ascii (py_slice data 0 6) 0.

(** ** Encoders the decoding functions are compared with *)

(** [s.encode("ascii")] for a text of ASCII characters. *)
Definition encode_ascii (s : str) : bytes := map byte_of_ascii s.

(** The data sub-blocks holding the given payloads, each behind its
    length byte, closed by the zero-length block. *)
Fixpoint frame (blocks : list (byte * bytes)) : bytes :=
  match blocks with
  | [] => [x00]
  | (L, payload) :: rest => L :: payload ++ frame rest
  end.

Definition well_framed (blocks : list (byte * bytes)) : Prop :=
  Forall (fun block => byte_val (fst block) <> 0 /\
                       len (snd block) = byte_val (fst block)) blocks.

(** The [w] low bits of [c] as characters, least significant first. *)
Fixpoint code_bits (w : nat) (c : Z) : str :=
  match w with
  | O => []
  | S w' => (if Z.odd c then "1"%char else "0"%char) :: code_bits w' (c / 2)
  end.

(** The states in which the code width is in step with the code table:
    right after a Clear code, or later with
    [len table = 2 ** (code_size - 1) + count]. *)
Definition width_tracks_table (gc_map : list pyval) (min_code_size : Z)
  (s : lzw_state) : Prop :=
  exists table,
    code_table s = Some table /\
    ((first s = Some true /\ table = fresh_code_table gc_map /\
      previous_code s = Some (cc_index gc_map) /\
      count s = 1 /\ code_size s = min_code_size + 1)
     \/
     (first s = Some false /\
      1 <= code_size s /\ 0 <= count s < 2 ^ (code_size s - 1) /\
      len table = 2 ^ (code_size s - 1) + count s)).

(** ** The packed bytes on their own *)

(** The four reads [extract_screen_descriptor] makes in the digits of
    its packed byte. *)
Definition packed_screen_fields (b : byte) : result (Z * Z * Z * Z) :=
  let packed_field := bin_digits (Byte.to_N b) in
  c0 <- py_index packed_field 0 ;;
  gc_fl <- int_char c0 ;;
  cr <- int_base2 (py_slice packed_field 1 4) ;;
  c4 <- py_index packed_field 4 ;;
  sort_fl <- int_char c4 ;;
  gc_size <- int_base2 (py_slice packed_field 5 8) ;;
  Ok (gc_fl, cr, sort_fl, gc_size).

(** The reads [extract_image_descriptor] makes in the digits of its
    packed byte: [(lc_fl, itl_fl, sort_fl, res, lc_size)]. *)
Definition packed_image_fields (b : byte) : result (Z * Z * Z * Z * Z) :=
  let packed_field := bin_digits (Byte.to_N b) in
  if list_eq_dec ascii_dec packed_field (str_lit "0") then Ok (0, 0, 0, 0, 0)
  else
    c0 <- py_index packed_field 0 ;;
    lc_fl <- int_char c0 ;;
    c1 <- py_index packed_field 1 ;;
    itl_fl <- int_char c1 ;;
    c2 <- py_index packed_field 2 ;;
    sort_fl <- int_char c2 ;;
    res <- int_base2 (py_slice packed_field 2 4) ;;
    lc_size <- int_base2 (py_slice packed_field 4 7) ;;
    Ok (lc_fl, itl_fl, sort_fl, res, lc_size).

(** The three variables the Clear branch assigns are all bound. *)
Definition clear_seen (s : lzw_state) : Prop :=
  code_table s <> None /\ first s <> None /\ previous_code s <> None.

(** The bits of a sequence of codes, each written with the width the
    decoder has at that point: [count] and [code_size] follow the tail
    of the decoding loop. *)
Fixpoint encode_codes (codes : list Z) (count code_size : Z) : str :=
  match codes with
  | [] => []
  | c :: rest =>
      code_bits (Z.to_nat code_size) c ++
      (if count + 1 =? 2 ^ (code_size - 1)
       then encode_codes rest 0 (code_size + 1)
       else encode_codes rest (count + 1) code_size)
  end.

(** An uncompressed stream: Clear, the given colour indices as literal
    codes, End-of-Information. *)
Definition encode_literals (gc_map : list pyval) (min_code_size : Z)
  (pixels : list Z) : str :=
  encode_codes (cc_index gc_map :: pixels ++ [cc_index gc_map + 1])
               0 (min_code_size + 1).

(** The state of the decoding of [minimal_gif] after Clear and the
    code 0. *)
Definition minimal_after_first : lzw_state :=
  {| start_b := 6; count := 2; code_size := 3;
     code_table := Some (fresh_code_table minimal_colours);
     first := Some false; previous_code := Some 0; image_data := [black] |}.

(** The codes Clear, 0, 8, 0, EOI at four bits each, and the state after
    the code 8, which lies two past the table and is kept as the
    previous code. *)
Definition overshoot_known_stream : str := str_lit "00100000000100001010".

Definition overshoot_after_8 : lzw_state :=
  {| start_b := 12; count := 3; code_size := 4;
     code_table := Some (fresh_code_table minimal_colours
                         ++ [PList [black; black]]);
     first := Some false; previous_code := Some 8;
     image_data := [black; black; black] |}.

(** * Properties *)

(** ** Evaluation of the test inputs *)

Example minimal_gif_colour_table :
  extract_global_colour_table minimal_gif = Ok [black; red; green; blue].
Proof. reflexivity. Qed.

Example minimal_gif_stream :
  image_data_stream minimal_gif = Ok (2, str_lit "001000100010110010100000").
Proof. reflexivity. Qed.

Example minimal_gif_descriptor :
  extract_image_descriptor minimal_gif
  = Ok {| id_left := 0; id_top := 0; id_width := 2; id_height := 2;
          id_lc_fl := 0; id_itl_fl := 0; id_sort_fl := 0; id_res := 0;
          id_lc_size := 0 |}.
Proof. reflexivity. Qed.

(** ** The minimal image through the whole pipeline *)

(** C1, as stated, does not hold: the decoded grid of the minimal image
    is not the grid of colour indices [[0,1],[2,3]]. *)
Lemma minimal_gif_not_index_grid :
  extract_image minimal_gif
  <> Some (Ok [[PInt 0; PInt 1]; [PInt 2; PInt 3]]).
Proof. vm_compute. discriminate. Qed.

(** C1, amended: the minimal 2x2 image decodes to the grid whose pixels
    are the RGB triples found at positions 0, 1 / 2, 3 of its global
    colour table. *)
Theorem minimal_gif_decodes :
  extract_global_colour_table minimal_gif = Ok [black; red; green; blue] /\
  extract_image minimal_gif = Some (Ok [[black; red]; [green; blue]]).
Proof. split; vm_compute; reflexivity. Qed.

(** ** The packed byte of the screen descriptor *)

(** With the top bit set, [bin] yields eight digits and the slices taken
    by [extract_screen_descriptor] are the published fields. *)
Lemma screen_fields_top_bit_set (b : byte) :
  128 <= byte_val b ->
  exists sd, extract_screen_descriptor (screen_header b) = Ok sd /\
             screen_fields sd = published_screen_fields (byte_val b).
Proof.
  destruct b; vm_compute; intros H;
    try (exfalso; apply H; reflexivity);
    eexists; split; reflexivity.
Qed.

(** Below 32 the digit string is too short for one of the reads. *)
Lemma screen_fields_short_digits (b : byte) :
  byte_val b < 32 ->
  exists e, extract_screen_descriptor (screen_header b) = Raise e.
Proof.
  destruct b; vm_compute; intros H; try discriminate H;
    eexists; reflexivity.
Qed.

(** Between 32 and 127 the reads succeed on a string that is too short:
    its first digit is always 1, while the published flag is 0. *)
Lemma screen_fields_top_bit_clear (b : byte) :
  32 <= byte_val b < 128 ->
  exists sd, extract_screen_descriptor (screen_header b) = Ok sd /\
             sd_gc_fl sd = 1 /\
             fst (fst (fst (published_screen_fields (byte_val b)))) = 0.
Proof.
  destruct b; vm_compute; intros [Hlo Hhi];
    try (exfalso; apply Hlo; reflexivity); try discriminate Hhi;
    eexists; repeat split; reflexivity.
Qed.

(** C3: on a file whose packed byte is [0x70] (no global colour table,
    colour resolution 7) [extract_screen_descriptor] returns flag 1 and
    resolution 6, where the published layout gives flag 0 and
    resolution 7: the digits of [bin] are not padded to eight, so every
    field is read one position too far to the left. *)
Theorem screen_descriptor_unpadded_packed_byte :
  py_index local_table_gif 10 = Ok x70 /\
  (exists sd, extract_screen_descriptor local_table_gif = Ok sd /\
              screen_fields sd = (1, 6, 0, 0)) /\
  published_screen_fields (byte_val x70) = (0, 7, 0, 0).
Proof.
  split; [reflexivity|]. split; [|reflexivity].
  eexists; split; reflexivity.
Qed.

(** ** Facts about the sequence operations *)

Ltac bind_cases H :=
  repeat match type of H with
         | bind ?m _ = _ =>
             let E := fresh "E" in
             destruct m eqn:E; cbn [bind] in H; [|discriminate H]
         | (if ?c then _ else _) = _ =>
             let E := fresh "E" in destruct c eqn:E
         end.

Lemma len_nonneg {A} (l : list A) : 0 <= len l.
Proof. unfold len. lia. Qed.

Lemma len_app {A} (l l' : list A) : len (l ++ l') = len l + len l'.
Proof. unfold len. rewrite length_app. lia. Qed.

Lemma py_index_lt {A} (l : list A) (i : Z) (x : A) :
  py_index l i = Ok x -> i < len l.
Proof.
  unfold py_index. intros H.
  destruct (_ || _) eqn:Hrange in H; [discriminate|].
  apply orb_false_iff in Hrange as [_ Hhi]. apply Z.leb_gt in Hhi.
  pose proof (len_nonneg l). destruct (Z.ltb_spec i 0); lia.
Qed.

Lemma py_index_nth {A} (l : list A) (i : Z) (x : A) :
  0 <= i -> py_index l i = Ok x -> nth_error l (Z.to_nat i) = Some x.
Proof.
  unfold py_index. intros Hi H.
  destruct (Z.ltb_spec i 0); [lia|].
  destruct (_ || _); [discriminate|].
  destruct (nth_error l (Z.to_nat i)); congruence.
Qed.

Lemma py_index_In {A} (l : list A) (i : Z) (x : A) :
  py_index l i = Ok x -> In x l.
Proof.
  unfold py_index. intros H.
  destruct (_ || _); [discriminate|].
  destruct (nth_error l _) eqn:Hnth; [|discriminate].
  injection H as <-. eapply nth_error_In; eassumption.
Qed.

Lemma py_index_out_of_range {A} (l : list A) (i : Z) :
  len l <= i -> py_index l i = Raise IndexError.
Proof.
  intros Hi. unfold py_index. pose proof (len_nonneg l).
  destruct (Z.ltb_spec i 0); [lia|].
  destruct (Z.leb_spec (len l) i); [|lia].
  rewrite orb_true_r. reflexivity.
Qed.

Lemma py_index_in_range {A} (l : list A) (i : Z) :
  0 <= i < len l -> exists x, py_index l i = Ok x.
Proof.
  intros Hi. unfold py_index.
  assert ((i <? 0) = false) as Hneg by (apply Z.ltb_ge; lia).
  assert ((len l <=? i) = false) as Hhi by (apply Z.leb_gt; lia).
  rewrite Hneg. cbv iota zeta. rewrite Hneg, Hhi. cbn [orb].
  destruct (nth_error l (Z.to_nat i)) eqn:Hnth; [eexists; reflexivity|].
  apply nth_error_None in Hnth. unfold len in Hi. lia.
Qed.

Lemma py_slice_past_end {A} (l : list A) (a b : Z) :
  len l <= a -> py_slice l a b = [].
Proof.
  intros Ha. unfold py_slice, slice_bound. pose proof (len_nonneg l).
  destruct (Z.ltb_spec a 0); [lia|].
  replace (Z.to_nat (Z.min (Z.max 0 a) (len l))) with (List.length l)
    by (unfold len in *; lia).
  rewrite skipn_all. apply firstn_nil.
Qed.

Lemma int2_acc_nonneg (s : str) : forall acc c,
  0 <= acc -> int2_acc acc s = Ok c -> 0 <= c.
Proof.
  induction s as [|ch s IH]; intros acc c Hacc H; cbn [int2_acc] in H.
  - injection H as <-. exact Hacc.
  - destruct (digit_of ch) as [d|] eqn:Hd; [|discriminate].
    destruct (Z.ltb_spec d 2); [|discriminate].
    apply IH in H; [exact H|].
    unfold digit_of in Hd.
    destruct (_ && _) eqn:Hr in Hd; [|discriminate].
    injection Hd as <-. apply andb_true_iff in Hr as [Hlo _].
    apply Z.leb_le in Hlo. lia.
Qed.

Lemma int_base2_nonneg (s : str) (c : Z) : int_base2 s = Ok c -> 0 <= c.
Proof.
  destruct s; [discriminate|]. unfold int_base2.
  apply int2_acc_nonneg. lia.
Qed.

Lemma int_base2_nonempty (s : str) (c : Z) : int_base2 s = Ok c -> s <> [].
Proof. destruct s; [discriminate|]. intros _. discriminate. Qed.

(** ** One iteration of the decoding loop *)

Section DecoderFacts.

Variable gc_map : list pyval.
Variable min_code_size : Z.
Variable data_stream : str.

Lemma lzw_step_continue s s' :
  lzw_step gc_map min_code_size data_stream s = Ok (Continue s') ->
  exists c s1,
    read_code data_stream s = Ok c /\
    lzw_branch gc_map min_code_size (advance s) c = Ok (Continue s1) /\
    s' = lzw_bookkeeping s1 c.
Proof.
  unfold lzw_step. intros H.
  destruct (read_code data_stream s) as [c|] eqn:Hread; [|discriminate].
  cbn [bind] in H.
  destruct (lzw_branch gc_map min_code_size (advance s) c) as [[s1|]|] eqn:Hb;
    cbn [bind] in H; try discriminate.
  injection H as <-. exists c, s1. auto.
Qed.

Lemma lzw_branch_clear s :
  lzw_branch gc_map min_code_size s (cc_index gc_map)
  = Ok (Continue
          {| start_b := start_b s; count := 0; code_size := min_code_size + 1;
             code_table := Some (fresh_code_table gc_map); first := Some true;
             previous_code := previous_code s; image_data := image_data s |}).
Proof. unfold lzw_branch. rewrite Z.eqb_refl. reflexivity. Qed.

(** Every branch but the Clear one leaves the cursor, the counter and
    the code width alone. *)
Lemma lzw_branch_other s c s1 :
  c <> cc_index gc_map ->
  lzw_branch gc_map min_code_size s c = Ok (Continue s1) ->
  start_b s1 = start_b s /\ count s1 = count s /\ code_size s1 = code_size s.
Proof.
  intros Hc H. unfold lzw_branch in H.
  destruct (Z.eqb_spec c (cc_index gc_map)); [contradiction|].
  destruct (c =? cc_index gc_map + 1); [discriminate|].
  bind_cases H; injection H as <-; cbn; auto.
Qed.

Lemma lzw_branch_start_b s c s1 :
  lzw_branch gc_map min_code_size s c = Ok (Continue s1) ->
  start_b s1 = start_b s.
Proof.
  destruct (Z.eq_dec c (cc_index gc_map)) as [->|Hc].
  - rewrite lzw_branch_clear. intros H. injection H as <-. reflexivity.
  - intros H. apply (lzw_branch_other _ _ _ Hc H).
Qed.

Lemma lzw_bookkeeping_code_size s c :
  (code_size (lzw_bookkeeping s c) = code_size s + 1 /\
   count (lzw_bookkeeping s c) = 0 /\
   1 <= code_size s /\ count s + 1 = 2 ^ (code_size s - 1))
  \/
  (code_size (lzw_bookkeeping s c) = code_size s /\
   count (lzw_bookkeeping s c) = count s + 1 /\
   ~ (1 <= code_size s /\ count s + 1 = 2 ^ (code_size s - 1))).
Proof.
  unfold lzw_bookkeeping.
  destruct (Z.leb_spec 0 (code_size s - 1));
    destruct (Z.eqb_spec (count s + 1) (2 ^ (code_size s - 1)));
    cbn; [left | right | right | right]; repeat split; try lia.
Qed.

Lemma lzw_bookkeeping_rest s c :
  start_b (lzw_bookkeeping s c) = start_b s /\
  code_table (lzw_bookkeeping s c) = code_table s /\
  first (lzw_bookkeeping s c) = first s /\
  previous_code (lzw_bookkeeping s c) = Some c /\
  image_data (lzw_bookkeeping s c) = image_data s.
Proof. unfold lzw_bookkeeping. destruct (_ && _); cbn; auto. Qed.

Lemma pow2_eq_1 (k : Z) : 0 <= k -> (1 = 2 ^ k <-> k = 0).
Proof.
  intros Hk. split; [|intros ->; reflexivity].
  intros H. destruct (Z.eq_dec k 0) as [|Hne]; [assumption|].
  assert (1 < 2 ^ k) by (apply Z.pow_gt_1; lia). lia.
Qed.

Lemma fresh_code_table_len : len (fresh_code_table gc_map) = len gc_map + 2.
Proof.
  unfold fresh_code_table, len. rewrite length_app, length_map. cbn. lia.
Qed.

(** C4, amended: the iteration that reads a Clear code rebuilds the
    code table with one entry per colour and the two sentinels, emits
    nothing, and sets the code width to [min_code_size + 1]; the Clear
    code is then counted like any other code, so the counter is 1
    afterwards.  With [min_code_size = 0] that count already equals
    [2 ** (code_size - 1)], so the width becomes 2 and the counter 0. *)
Theorem clear_code_resets s :
  read_code data_stream s = Ok (cc_index gc_map) ->
  exists s',
    lzw_step gc_map min_code_size data_stream s = Ok (Continue s') /\
    code_table s' = Some (fresh_code_table gc_map) /\
    len (fresh_code_table gc_map) = len gc_map + 2 /\
    image_data s' = image_data s /\
    first s' = Some true /\
    previous_code s' = Some (cc_index gc_map) /\
    (min_code_size <> 0 -> code_size s' = min_code_size + 1 /\ count s' = 1) /\
    (min_code_size = 0 -> code_size s' = 2 /\ count s' = 0).
Proof.
  intros Hread. unfold lzw_step. rewrite Hread. cbn [bind].
  rewrite lzw_branch_clear. cbn [bind].
  eexists. split; [reflexivity|].
  match goal with
  | |- context [lzw_bookkeeping ?s1 ?c] =>
      destruct (lzw_bookkeeping_rest s1 c) as (_ & -> & -> & -> & ->);
      destruct (lzw_bookkeeping_code_size s1 c) as [(-> & -> & Hw & Hp)|(-> & -> & Hn)];
      cbn [code_size count code_table first image_data advance] in *
  end.
  - replace (min_code_size + 1 - 1) with min_code_size in Hp by lia.
    apply pow2_eq_1 in Hp; [|lia].
    split; [reflexivity|]. split; [apply fresh_code_table_len|].
    do 3 (split; [reflexivity|]).
    split; intros Hm; split; lia.
  - split; [reflexivity|]. split; [apply fresh_code_table_len|].
    do 3 (split; [reflexivity|]).
    split; intros Hm; [split; lia|].
    exfalso. apply Hn. subst min_code_size. split; [lia | reflexivity].
Qed.

(** C5, amended: a code that is neither Clear nor End-of-Information
    and is not below the table length, whether equal to it or beyond
    it, goes through the one [else] branch: the previous code's
    sequence followed by its own first colour is emitted and appended
    to the code table, and the loop continues. *)
Theorem unknown_code_extends_previous s c table previous x l :
  read_code data_stream s = Ok c ->
  c <> cc_index gc_map ->
  c <> cc_index gc_map + 1 ->
  code_table s = Some table ->
  len table <= c ->
  previous_code s = Some previous ->
  py_index table previous = Ok (PList (x :: l)) ->
  exists s',
    lzw_step gc_map min_code_size data_stream s = Ok (Continue s') /\
    image_data s' = image_data s ++ (x :: l) ++ [x] /\
    code_table s' = Some (table ++ [PList ((x :: l) ++ [x])]) /\
    previous_code s' = Some c.
Proof.
  intros Hread Hcc Heoi Htable Hlen Hprev Hentry.
  unfold lzw_step. rewrite Hread. cbn [bind].
  unfold lzw_branch.
  destruct (Z.eqb_spec c (cc_index gc_map)); [contradiction|].
  destruct (Z.eqb_spec c (cc_index gc_map + 1)); [contradiction|].
  cbn [advance code_table previous_code image_data].
  rewrite Htable, Hprev. cbn [load bind].
  destruct (Z.ltb_spec c (len table)); [lia|].
  rewrite Hentry. cbn [bind py_first py_add_list py_extend].
  replace (py_index (x :: l) 0) with (Ok x) by reflexivity.
  cbn [bind]. eexists. split; [reflexivity|].
  match goal with
  | |- context [lzw_bookkeeping ?s1 ?c] =>
      destruct (lzw_bookkeeping_rest s1 c) as (_ & -> & _ & -> & ->)
  end.
  cbn. auto.
Qed.

(** C9: over a stretch of iterations that read no Clear code the code
    width never decreases; an iteration that reads another code adds
    one to the width exactly when the counter reaches
    [2 ** (code_size - 1)] and otherwise keeps it; and an iteration
    after which the width is smaller has read the Clear code. *)
Theorem code_size_between_clears :
  (forall s s',
      run_without_clear gc_map min_code_size data_stream s s' ->
      code_size s <= code_size s') /\
  (forall c s s',
      code_step gc_map min_code_size data_stream c s s' ->
      c <> cc_index gc_map ->
      (code_size s' = code_size s + 1 /\
       count s + 1 = 2 ^ (code_size s - 1))
      \/
      (code_size s' = code_size s /\
       ~ (1 <= code_size s /\ count s + 1 = 2 ^ (code_size s - 1)))) /\
  (forall c s s',
      code_step gc_map min_code_size data_stream c s s' ->
      code_size s' < code_size s ->
      c = cc_index gc_map).
Proof.
  assert (Hstep : forall c s s',
             code_step gc_map min_code_size data_stream c s s' ->
             c <> cc_index gc_map ->
             (code_size s' = code_size s + 1 /\
              count s + 1 = 2 ^ (code_size s - 1))
             \/
             (code_size s' = code_size s /\
              ~ (1 <= code_size s /\ count s + 1 = 2 ^ (code_size s - 1)))).
  { intros c s s' [Hread Hs] Hc.
    apply lzw_step_continue in Hs as (c' & s1 & Hread' & Hb & ->).
    rewrite Hread in Hread'. injection Hread' as <-.
    apply lzw_branch_other in Hb as (_ & Hcount & Hsize); [|assumption].
    cbn [advance count code_size] in Hcount, Hsize.
    destruct (lzw_bookkeeping_code_size s1 c) as [(-> & _ & _ & Hp)|(-> & _ & Hn)];
      rewrite Hcount, Hsize in *; auto. }
  split; [|split].
  - induction 1 as [s|s c s' s'' Hcs Hc _ IH]; [lia|].
    destruct (Hstep _ _ _ Hcs Hc) as [[Heq _]|[Heq _]]; lia.
  - exact Hstep.
  - intros c s s' Hcs Hlt.
    destruct (Z.eq_dec c (cc_index gc_map)) as [|Hc]; [assumption|].
    destruct (Hstep _ _ _ Hcs Hc) as [[Heq _]|[Heq _]]; lia.
Qed.

End DecoderFacts.

(** ** Runs on the test inputs *)

Example minimal_run_1 :
  lzw_run minimal_colours 2 minimal_stream 1 (init_state 2)
  = Some minimal_after_clear.
Proof. reflexivity. Qed.

Example minimal_run_4 :
  lzw_run minimal_colours 2 minimal_stream 4 (init_state 2)
  = Some minimal_after_three.
Proof. reflexivity. Qed.

Example overshoot_run_2 :
  lzw_run minimal_colours 3 overshoot_stream 2 (init_state 3)
  = Some overshoot_before_8.
Proof. reflexivity. Qed.

(** C4, as stated, does not hold: after the iteration that reads the
    Clear code of the minimal image the counter is 1, not 0. *)
Lemma clear_code_is_counted :
  read_code minimal_stream (init_state 2) = Ok (cc_index minimal_colours) /\
  lzw_step minimal_colours 2 minimal_stream (init_state 2)
  = Ok (Continue minimal_after_clear) /\
  count minimal_after_clear <> 0.
Proof. repeat split; try reflexivity. cbn. lia. Qed.

Lemma clear_code_resets_witness :
  exists s',
    lzw_step minimal_colours 2 minimal_stream (init_state 2) = Ok (Continue s') /\
    code_table s' = Some (fresh_code_table minimal_colours) /\
    len (fresh_code_table minimal_colours) = len minimal_colours + 2 /\
    image_data s' = image_data (init_state 2) /\
    first s' = Some true /\
    previous_code s' = Some (cc_index minimal_colours) /\
    (2 <> 0 -> code_size s' = 2 + 1 /\ count s' = 1) /\
    (2 = 0 -> code_size s' = 2 /\ count s' = 0).
Proof.
  apply (clear_code_resets minimal_colours 2 minimal_stream (init_state 2)).
  reflexivity.
Defined.

(** C5, as stated, does not hold: in [overshoot_gif] the code 8 is read
    while the code table has 6 entries, two past its length, and the
    decoder neither stops nor reports a corrupt stream; it extends the
    previous sequence and the decode ends normally. *)
Lemma code_past_table_accepted :
  read_code overshoot_stream overshoot_before_8 = Ok 8 /\
  option_map len (code_table overshoot_before_8) = Some 6 /\
  (exists s', lzw_step minimal_colours 3 overshoot_stream overshoot_before_8
              = Ok (Continue s') /\
              image_data s' = [black; black; black]) /\
  lzw_decode minimal_colours 3 overshoot_stream = Some (Ok [black; black; black]) /\
  extract_image overshoot_gif = Some (Ok [[black; black]]).
Proof.
  split; [reflexivity|]. split; [reflexivity|]. split.
  - eexists. split; reflexivity.
  - split; reflexivity.
Qed.

Lemma unknown_code_extends_previous_witness :
  exists s',
    lzw_step minimal_colours 3 overshoot_stream overshoot_before_8
    = Ok (Continue s') /\
    image_data s' = image_data overshoot_before_8 ++ [black] ++ [black] /\
    code_table s'
    = Some (fresh_code_table minimal_colours ++ [PList ([black] ++ [black])]) /\
    previous_code s' = Some 8.
Proof.
  apply (unknown_code_extends_previous minimal_colours 3 overshoot_stream
           overshoot_before_8 8 (fresh_code_table minimal_colours) 0 black []);
    first [reflexivity | cbv; discriminate].
Defined.

Lemma code_size_between_clears_witness :
  run_without_clear minimal_colours 2 minimal_stream
                    minimal_after_clear minimal_after_three /\
  code_size minimal_after_clear <= code_size minimal_after_three.
Proof.
  assert (Hrun : run_without_clear minimal_colours 2 minimal_stream
                   minimal_after_clear minimal_after_three).
  { eapply (rwc_step _ _ _ _ 0); [split; reflexivity | cbv; discriminate |].
    eapply (rwc_step _ _ _ _ 1); [split; reflexivity | cbv; discriminate |].
    eapply (rwc_step _ _ _ _ 2); [split; reflexivity | cbv; discriminate |].
    apply rwc_refl. }
  split; [exact Hrun|].
  exact (proj1 (code_size_between_clears minimal_colours 2 minimal_stream)
               _ _ Hrun).
Defined.

(** ** What the decoder emits *)

Section Emission.

Variable gc_map : list pyval.
Variable min_code_size : Z.
Variable data_stream : str.

Lemma In_is_table_colour (v : pyval) :
  In v gc_map -> is_table_colour gc_map v.
Proof.
  intros Hin. apply In_nth_error in Hin as [n Hn].
  assert (n < List.length gc_map)%nat
    by (apply nth_error_Some; congruence).
  exists (Z.of_nat n). split; [unfold len; lia|].
  destruct (py_index_in_range gc_map (Z.of_nat n)) as [x Hx];
    [unfold len; lia|].
  rewrite Hx. f_equal.
  apply py_index_nth in Hx; [|lia].
  rewrite Nat2Z.id in Hx. congruence.
Qed.

Lemma fresh_entry (v : pyval) :
  In v (fresh_code_table gc_map) ->
  colour_entry gc_map v \/ exists s, v = PStr s.
Proof.
  unfold fresh_code_table. intros Hin.
  apply in_app_or in Hin as [Hin|Hin].
  - apply in_map_iff in Hin as (c & <- & Hc).
    left. exists [c]. split; [reflexivity|]. constructor; [assumption|constructor].
  - right. destruct Hin as [<-|[<-|[]]]; eexists; reflexivity.
Qed.

(** Any entry of the code table is a colour entry or a sentinel. *)
Lemma table_entry (table : list pyval) (i : Z) (v : pyval) :
  table_ok gc_map table ->
  py_index table i = Ok v ->
  colour_entry gc_map v \/ exists s, v = PStr s.
Proof.
  intros (extra & -> & Hextra) Hidx.
  apply py_index_In in Hidx. apply in_app_or in Hidx as [Hin|Hin].
  - apply fresh_entry. assumption.
  - left. rewrite Forall_forall in Hextra. auto.
Qed.

(** A code that is neither sentinel and lies below the table length
    names a colour entry. *)
Lemma known_code_entry (table : list pyval) (c : Z) (v : pyval) :
  table_ok gc_map table ->
  0 <= c ->
  c <> cc_index gc_map ->
  c <> cc_index gc_map + 1 ->
  py_index table c = Ok v ->
  colour_entry gc_map v.
Proof.
  intros (extra & -> & Hextra) Hc Hcc Heoi Hidx.
  apply py_index_nth in Hidx; [|assumption].
  unfold fresh_code_table, cc_index, len in *.
  set (singles := map (fun c0 => PList [c0]) gc_map) in *.
  assert (Hlen : List.length singles = List.length gc_map)
    by apply length_map.
  destruct (Nat.lt_ge_cases (Z.to_nat c) (List.length singles)) as [Hlt|Hge].
  - rewrite <- app_assoc, nth_error_app1 in Hidx by assumption.
    apply nth_error_In in Hidx. apply in_map_iff in Hidx as (x & <- & Hx).
    exists [x]. split; [reflexivity|]. constructor; [assumption|constructor].
  - rewrite nth_error_app2 in Hidx
      by (rewrite length_app; cbn [List.length]; lia).
    apply nth_error_In in Hidx. rewrite Forall_forall in Hextra. auto.
Qed.

Lemma py_first_colour_entry (v b : pyval) :
  colour_entry gc_map v -> py_first v = Ok b -> In b gc_map.
Proof.
  intros (l & -> & Hl) Hb. cbn in Hb. apply py_index_In in Hb.
  rewrite Forall_forall in Hl. auto.
Qed.

Lemma py_add_list_colour_entry (table : list pyval) (i : Z) (entry b new : pyval) :
  table_ok gc_map table ->
  py_index table i = Ok entry ->
  In b gc_map ->
  py_add_list entry b = Ok new ->
  colour_entry gc_map entry /\ colour_entry gc_map new.
Proof.
  intros Htable Hidx Hb Hnew.
  destruct (table_entry _ _ _ Htable Hidx) as [Hentry|[s ->]];
    [|discriminate Hnew].
  split; [assumption|].
  destruct Hentry as (l & -> & Hl). cbn in Hnew. injection Hnew as <-.
  exists (l ++ [b]). split; [reflexivity|].
  apply Forall_app. split; [assumption|]. constructor; [assumption|constructor].
Qed.

Lemma py_extend_colour_entry (acc acc' : list pyval) (v : pyval) :
  Forall (fun x => In x gc_map) acc ->
  colour_entry gc_map v ->
  py_extend acc v = Ok acc' ->
  Forall (fun x => In x gc_map) acc'.
Proof.
  intros Hacc (l & -> & Hl) H. cbn in H. injection H as <-.
  apply Forall_app. auto.
Qed.

Lemma table_ok_snoc (table : list pyval) (new : pyval) :
  table_ok gc_map table -> colour_entry gc_map new ->
  table_ok gc_map (table ++ [new]).
Proof.
  intros (extra & -> & Hextra) Hnew. exists (extra ++ [new]).
  split; [symmetry; apply app_assoc|].
  apply Forall_app. split; [assumption|]. constructor; [assumption|constructor].
Qed.

Lemma lzw_branch_emits s c s1 :
  0 <= c ->
  emits_table_colours gc_map s ->
  lzw_branch gc_map min_code_size s c = Ok (Continue s1) ->
  emits_table_colours gc_map s1.
Proof.
  intros Hc [Hdata Htable] H. unfold lzw_branch in H.
  destruct (Z.eqb_spec c (cc_index gc_map)) as [|Hcc].
  { injection H as <-. split; [exact Hdata|].
    cbn. intros table [= <-]. exists []. split; [symmetry; apply app_nil_r|constructor]. }
  destruct (Z.eqb_spec c (cc_index gc_map + 1)) as [|Heoi]; [discriminate|].
  destruct (code_table s) as [table|] eqn:Hct; [|discriminate].
  specialize (Htable table eq_refl). cbn [load bind] in H.
  destruct (c <? len table).
  - destruct (py_index table c) as [current_color|] eqn:Hcur; [|discriminate].
    cbn [bind] in H.
    pose proof (known_code_entry _ _ _ Htable Hc Hcc Heoi Hcur) as Hcolour.
    destruct (py_extend (image_data s) current_color) as [acc'|] eqn:Hext;
      [|discriminate].
    cbn [bind] in H.
    pose proof (py_extend_colour_entry _ _ _ Hdata Hcolour Hext) as Hacc'.
    destruct (load (first s)) as [[|]|]; cbn [bind] in H; [| |discriminate].
    + injection H as <-. split; [exact Hacc'|].
      cbn. intros t [= <-]. exact Htable.
    + destruct (py_first current_color) as [b|] eqn:Hb; [|discriminate].
      cbn [bind] in H.
      destruct (load (previous_code s)) as [previous|]; [|discriminate].
      cbn [bind] in H.
      destruct (py_index table previous) as [entry|] eqn:Hentry; [|discriminate].
      cbn [bind] in H.
      destruct (py_add_list entry b) as [new|] eqn:Hnew; [|discriminate].
      cbn [bind] in H. injection H as <-. split; [exact Hacc'|].
      cbn. intros t [= <-]. apply table_ok_snoc; [assumption|].
      eapply py_add_list_colour_entry; eauto.
      eapply py_first_colour_entry; eauto.
  - destruct (load (previous_code s)) as [previous|]; [|discriminate].
    cbn [bind] in H.
    destruct (py_index table previous) as [entry|] eqn:Hentry; [|discriminate].
    cbn [bind] in H.
    destruct (py_first entry) as [b|] eqn:Hb; [|discriminate].
    cbn [bind] in H.
    destruct (py_add_list entry b) as [new|] eqn:Hnew; [|discriminate].
    cbn [bind] in H.
    destruct (table_entry _ _ _ Htable Hentry) as [Hcolour|[str0 ->]];
      [|discriminate Hnew].
    pose proof (py_first_colour_entry _ _ Hcolour Hb) as Hbin.
    destruct (py_add_list_colour_entry _ _ _ _ _ Htable Hentry Hbin Hnew)
      as [_ Hcnew].
    destruct (py_extend (image_data s) new) as [acc'|] eqn:Hext; [|discriminate].
    cbn [bind] in H. injection H as <-.
    split; [eapply py_extend_colour_entry; eauto|].
    cbn. intros t [= <-]. apply table_ok_snoc; assumption.
Qed.

(** The invariant holds when the loop is entered and after every
    iteration: whatever has been emitted so far is from the table. *)
Lemma init_state_emits : emits_table_colours gc_map (init_state min_code_size).
Proof. split; [constructor|]. cbn. discriminate. Qed.

Lemma lzw_step_emits s s' :
  emits_table_colours gc_map s ->
  lzw_step gc_map min_code_size data_stream s = Ok (Continue s') ->
  emits_table_colours gc_map s'.
Proof.
  intros Hinv Hstep.
  apply lzw_step_continue in Hstep as (c & s1 & Hread & Hb & ->).
  apply int_base2_nonneg in Hread.
  apply lzw_branch_emits in Hb; [|assumption|exact Hinv].
  destruct Hb as [Hdata Htable].
  destruct (lzw_bookkeeping_rest s1 c) as (_ & Ht & _ & _ & Hd).
  split; [rewrite Hd; assumption | rewrite Ht; assumption].
Qed.

Lemma lzw_loop_emits (fuel : nat) : forall s out,
  emits_table_colours gc_map s ->
  lzw_loop gc_map min_code_size data_stream fuel s = Some (Ok out) ->
  Forall (fun x => In x gc_map) out.
Proof.
  induction fuel as [|fuel IH]; intros s out Hinv H; [discriminate|].
  cbn [lzw_loop] in H.
  destruct (lzw_step gc_map min_code_size data_stream s) as [[s'|]|] eqn:Hstep.
  - eapply IH; [|eassumption]. eapply lzw_step_emits; eassumption.
  - injection H as <-. apply Hinv.
  - discriminate.
Qed.

(** C2, amended: the decoder emits colours, not indices; every value
    in the sequence it returns is the entry found at some index
    [0 <= i < len gc_map] of the global colour table. *)
Theorem emitted_colours_come_from_table (out : list pyval) :
  lzw_decode gc_map min_code_size data_stream = Some (Ok out) ->
  Forall (is_table_colour gc_map) out.
Proof.
  intros H. unfold lzw_decode in H.
  apply lzw_loop_emits in H; [|apply init_state_emits].
  eapply Forall_impl; [|exact H]. apply In_is_table_colour.
Qed.

End Emission.

(** C2, as stated, does not hold: what the decoder emits for the minimal
    image are the RGB triples of the colour table, none of which is an
    index below the table size. *)
Lemma minimal_gif_emits_triples :
  lzw_decode minimal_colours 2 minimal_stream
  = Some (Ok [black; red; green; blue]) /\
  ~ Forall (is_colour_index (len minimal_colours)) [black; red; green; blue].
Proof.
  split; [reflexivity|]. intros H. inversion H as [|v l Hv _]; subst.
  destruct Hv as (i & Hi & _). discriminate Hi.
Qed.

Lemma emitted_colours_come_from_table_witness :
  Forall (is_table_colour minimal_colours) [black; red; green; blue].
Proof.
  apply (emitted_colours_come_from_table minimal_colours 2 minimal_stream).
  reflexivity.
Defined.

(** ** The grid builder *)

Section Reshape.

Variable width : Z.
Hypothesis width_pos : 0 < width.

(** The loop appends full rows to [image]; what it leaves in [row] at
    the end is shorter than a row and is not returned. *)
Lemma reshape_loop_rows (items : list pyval) :
  forall index image row,
    len row < width ->
    (exists k, index = k * width + len row + 1) ->
    exists rows leftover,
      reshape_loop width items index image row = Ok (image ++ rows) /\
      Forall (fun r => len r = width) rows /\
      concat rows ++ leftover = row ++ items /\
      len leftover < width.
Proof.
  induction items as [|color rest IH]; intros index image row Hrow [k Hk].
  - exists [], row. cbn. rewrite !app_nil_r. auto.
  - cbn [reshape_loop].
    destruct (Z.eqb_spec width 0) as [|_]; [lia|].
    assert (Hrow' : len (row ++ [color]) = len row + 1)
      by (rewrite len_app; reflexivity).
    assert (Hmod : index mod width = (len row + 1) mod width).
    { subst index. rewrite <- Z.add_assoc, Z.add_comm. apply Z.mod_add. lia. }
    rewrite Hmod.
    destruct (Z.eq_dec (len row + 1) width) as [Hfull|Hpart].
    + rewrite Hfull, Z.mod_same, Z.eqb_refl by lia.
      destruct (IH (index + 1) (image ++ [row ++ [color]]) [])
        as (rows & leftover & Hloop & Hrows & Hcat & Hleft).
      { cbn. exact width_pos. }
      { exists (k + 1). cbn. lia. }
      exists ((row ++ [color]) :: rows), leftover.
      rewrite Hloop, <- app_assoc. cbn [app concat].
      repeat split; try assumption.
      * constructor; [lia | assumption].
      * rewrite <- !app_assoc. cbn [app] in *. rewrite Hcat. reflexivity.
    + pose proof (len_nonneg row).
      rewrite Z.mod_small by lia.
      destruct (Z.eqb_spec (len row + 1) 0) as [|_]; [lia|].
      destruct (IH (index + 1) image (row ++ [color]))
        as (rows & leftover & Hloop & Hrows & Hcat & Hleft).
      { lia. }
      { exists k. lia. }
      exists rows, leftover. rewrite Hloop, Hcat, <- app_assoc.
      repeat split; assumption.
Qed.

Lemma len_concat_rows (rows : list (list pyval)) :
  Forall (fun r => len r = width) rows ->
  len (concat rows) = width * len rows.
Proof.
  induction 1 as [|r rows Hr _ IH]; [cbn; lia|].
  cbn [concat]. rewrite len_app, IH, Hr. unfold len. cbn [List.length]. lia.
Qed.

(** C7, amended: for a positive width the grid builder never fails.
    It returns the full rows of the sequence, in order, each of the
    descriptor's width, and silently leaves out the colours of a
    trailing partial row: there are [len image_data / width] rows and
    [len image_data mod width] colours are dropped.  When the count
    is a multiple of the width nothing is dropped and rows times
    width is the count. *)
Theorem reshape_full_rows (image_data : list pyval) :
  exists image dropped,
    reshape width image_data = Ok image /\
    Forall (fun r => len r = width) image /\
    concat image ++ dropped = image_data /\
    len image = len image_data / width /\
    len dropped = len image_data mod width /\
    (len image_data mod width = 0 ->
     len image * width = len image_data /\ concat image = image_data).
Proof.
  destruct (reshape_loop_rows image_data 1 [] [])
    as (rows & leftover & Hloop & Hrows & Hcat & Hleft).
  { cbn. exact width_pos. }
  { exists 0. cbn. lia. }
  cbn [app] in Hloop, Hcat.
  exists rows, leftover. split; [exact Hloop|]. split; [exact Hrows|].
  split; [exact Hcat|].
  assert (Hlen : len image_data = width * len rows + len leftover).
  { rewrite <- Hcat, len_app, len_concat_rows by assumption. reflexivity. }
  pose proof (len_nonneg leftover) as Hnn.
  assert (Hdiv : len image_data / width = len rows /\
                 len image_data mod width = len leftover).
  { split; symmetry;
      [apply (Z.div_unique_pos _ width _ (len leftover))
      |apply (Z.mod_unique_pos _ width (len rows))];
      solve [lia | exact Hlen]. }
  destruct Hdiv as [Hq Hr].
  split; [symmetry; exact Hq|]. split; [symmetry; exact Hr|].
  intros Hzero. split; [lia|].
  assert (leftover = []) as ->.
  { destruct leftover; [reflexivity|].
    unfold len in Hr, Hzero. cbn [List.length] in Hr. lia. }
  rewrite app_nil_r in Hcat. exact Hcat.
Qed.

End Reshape.

(** C7, as stated, does not hold: three colours reshaped to width 2 give
    one row and no error; the third colour is dropped. *)
Lemma partial_row_dropped :
  len [black; red; green] mod 2 <> 0 /\
  reshape 2 [black; red; green] = Ok [[black; red]].
Proof. split; [cbv; discriminate | reflexivity]. Qed.

Lemma reshape_full_rows_witness :
  exists image dropped,
    reshape 2 [black; red; green; blue] = Ok image /\
    Forall (fun r => len r = 2) image /\
    concat image ++ dropped = [black; red; green; blue] /\
    len image = len [black; red; green; blue] / 2 /\
    len dropped = len [black; red; green; blue] mod 2 /\
    (len [black; red; green; blue] mod 2 = 0 ->
     len image * 2 = len [black; red; green; blue] /\
     concat image = [black; red; green; blue]).
Proof.
  apply (reshape_full_rows 2); lia.
Defined.

(** ** Locating the image descriptor *)

Lemma nth_error_py_index {A} (l : list A) (n : nat) (x : A) :
  nth_error l n = Some x -> py_index l (Z.of_nat n) = Ok x.
Proof.
  intros Hn.
  assert (n < List.length l)%nat by (apply nth_error_Some; congruence).
  destruct (py_index_in_range l (Z.of_nat n)) as [y Hy]; [unfold len; lia|].
  rewrite Hy. apply py_index_nth in Hy; [|lia].
  rewrite Nat2Z.id in Hy. congruence.
Qed.

Lemma find_from_absent (b : byte) (l : bytes) : forall i,
  Forall (fun x => x <> b) l -> find_from b l i = -1.
Proof.
  induction l as [|x l IH]; intros i Hl; [reflexivity|].
  inversion Hl as [|? ? Hx Hrest]; subst. cbn [find_from].
  destruct (Byte.eqb x b) eqn:Heq.
  - apply Byte.byte_dec_bl in Heq. contradiction.
  - apply IH. assumption.
Qed.

(** [find] answers [-1] when the byte does not occur from [start] on. *)
Lemma bytes_find_absent (b : byte) (data : bytes) (start : Z) :
  0 <= start ->
  (forall i, start <= i -> py_index data i <> Ok b) ->
  bytes_find b data start = -1.
Proof.
  intros Hstart Habsent. unfold bytes_find. apply find_from_absent.
  apply Forall_forall. intros x Hin ->.
  apply In_nth_error in Hin as [n Hn]. rewrite nth_error_skipn in Hn.
  assert (Hlt : (slice_bound data start + n < List.length data)%nat)
    by (apply nth_error_Some; congruence).
  apply nth_error_py_index in Hn. revert Hn. apply Habsent.
  revert Hlt. unfold slice_bound, len. cbv zeta.
  destruct (Z.ltb_spec start 0); lia.
Qed.

Lemma table_size_nonneg (sd : screen_descriptor) : 0 <= table_size_of sd.
Proof.
  unfold table_size_of.
  assert (0 <= 2 ^ (sd_gc_size sd + 1)) by (apply Z.pow_nonneg; lia). lia.
Qed.

(** No exception of the source carries one of the specification's
    error names. *)
Lemma builtin_exceptions_only {A} (r : result A) (name : string) :
  ~ In name ["IndexError"; "ValueError"; "NameError"; "TypeError";
             "ZeroDivisionError"]%string ->
  ~ fails_with r name.
Proof.
  intros Hname (e & _ & He). apply Hname. rewrite <- He.
  destruct e; cbn; auto 6.
Qed.

(** C8, amended: when no [0x2C] byte occurs after the global colour
    table, [find] answers [-1] and [extract_image_descriptor] goes on
    with that position; no [ImageDescriptorNotFound] is raised.  The
    descriptor is then read from the start of the buffer: bytes 0-1,
    2-3, 4-5 and 6-7 become left, top, width and height, and byte 8 is
    taken for the packed field. *)
Theorem missing_separator_reads_buffer_start (data : bytes) (sd : screen_descriptor) :
  extract_screen_descriptor data = Ok sd ->
  (forall i, 13 + table_size_of sd <= i ->
             py_index data i <> Ok image_separator) ->
  extract_image_descriptor data = image_descriptor_at data (-1) /\
  ~ fails_with (extract_image_descriptor data) "ImageDescriptorNotFound" /\
  (forall d, extract_image_descriptor data = Ok d ->
     id_left d = int_from_bytes_little (py_slice data 0 2) /\
     id_top d = int_from_bytes_little (py_slice data 2 4) /\
     id_width d = int_from_bytes_little (py_slice data 4 6) /\
     id_height d = int_from_bytes_little (py_slice data 6 8) /\
     exists b8, py_index data 8 = Ok b8).
Proof.
  intros Hsd Habsent.
  assert (Hat : extract_image_descriptor data = image_descriptor_at data (-1)).
  { unfold extract_image_descriptor. rewrite Hsd. cbn [bind].
    rewrite bytes_find_absent; [reflexivity | | assumption].
    pose proof (table_size_nonneg sd). lia. }
  split; [exact Hat|]. split.
  - apply builtin_exceptions_only. cbn. intros H.
    repeat (destruct H as [H|H]; [discriminate H|]). exact H.
  - intros d Hd. rewrite Hat in Hd. unfold image_descriptor_at in Hd.
    change (-1 + 1) with 0 in Hd. change (-1 + 3) with 2 in Hd.
    change (-1 + 5) with 4 in Hd. change (-1 + 7) with 6 in Hd.
    change (-1 + 9) with 8 in Hd.
    destruct (py_index data 8) as [b8|] eqn:Hb8; [|discriminate].
    cbn [bind] in Hd.
    destruct (list_eq_dec _ _ _).
    + injection Hd as <-. cbn. eauto 6.
    + bind_cases Hd. injection Hd as <-. cbn. eauto 6.
Qed.

(** C8, as stated, does not hold: [imageless_gif] has no [0x2C] byte
    after its colour table, and [extract_image_descriptor] returns a
    descriptor made of the signature and screen-size bytes. *)
Lemma missing_separator_returns_descriptor :
  bytes_find image_separator imageless_gif 25 = -1 /\
  extract_image_descriptor imageless_gif
  = Ok {| id_left := 18759; id_top := 14406; id_width := 24889;
          id_height := 16; id_lc_fl := 1; id_itl_fl := 0; id_sort_fl := 0;
          id_res := 0; id_lc_size := 0 |}.
Proof. split; reflexivity. Qed.

Lemma imageless_gif_no_separator (i : Z) :
  25 <= i -> py_index imageless_gif i <> Ok image_separator.
Proof.
  intros Hi. destruct (Z.eq_dec i 25) as [->|Hne]; [cbv; discriminate|].
  rewrite py_index_out_of_range; [discriminate|].
  change (len imageless_gif) with 26. lia.
Qed.

Lemma missing_separator_reads_buffer_start_witness :
  extract_image_descriptor imageless_gif = image_descriptor_at imageless_gif (-1).
Proof.
  refine (proj1 (missing_separator_reads_buffer_start imageless_gif
    {| sd_width := 16; sd_height := 16; sd_gc_fl := 1; sd_cr := 1;
       sd_sort_fl := 0; sd_gc_size := 1; sd_bcolour_i := 0; sd_px_ratio := 0 |}
    _ _)).
  - reflexivity.
  - exact imageless_gif_no_separator.
Defined.

(** ** Truncated input and termination *)

Lemma sub_block_loop_body (image_bytes : bytes) (start : Z) (L : byte)
  (acc : list str) :
  sub_block_loop image_bytes start L acc =
  if byte_val L =? 0 then Ok acc
  else match py_index image_bytes (start + (byte_val L + 1)) with
       | Raise e => Raise e
       | Ok next =>
           sub_block_loop image_bytes (start + (byte_val L + 1)) next
             (acc ++ [concat (map byte_bits
                                (py_slice image_bytes (start + 1)
                                          (start + byte_val L + 1)))])
       end.
Proof.
  rewrite sub_block_loop_equation_1.
  destruct (byte_val L =? 0); [reflexivity|].
  cbv beta iota delta [sub_block_loop_unfold_clause_1].
  destruct (inspect _) as [r Heq].
  transitivity
    (match r with
     | Raise e => Raise e
     | Ok next =>
         sub_block_loop image_bytes (start + (byte_val L + 1)) next
           (acc ++ [concat (map byte_bits
                              (py_slice image_bytes (start + 1)
                                        (start + byte_val L + 1)))])
     end); [destruct r; reflexivity | rewrite <- Heq; reflexivity].
Qed.

(** A sub-block that announces more bytes than the buffer holds makes
    the read of the next length byte fall outside the buffer. *)
Lemma overrun_raises_IndexError (image_bytes : bytes) (start : Z) (L : byte) :
  overruns image_bytes start L ->
  forall acc, sub_block_loop image_bytes start L acc = Raise IndexError.
Proof.
  induction 1 as [start L Hnz Hpast|start L L' Hnz Hnext _ IH]; intros acc;
    rewrite sub_block_loop_body;
    (destruct (Z.eqb_spec (byte_val L) 0); [contradiction|]).
  - rewrite py_index_out_of_range by lia. reflexivity.
  - rewrite Hnext. apply IH.
Qed.

Section Termination.

Variable gc_map : list pyval.
Variable min_code_size : Z.
Variable data_stream : str.
Hypothesis min_code_size_nonneg : 0 <= min_code_size.

Lemma read_code_exhausted s :
  len data_stream <= start_b s ->
  read_code data_stream s = Raise ValueError.
Proof.
  intros Hend. unfold read_code.
  rewrite py_slice_past_end by assumption. reflexivity.
Qed.

Lemma lzw_step_progress s s' :
  1 <= code_size s ->
  lzw_step gc_map min_code_size data_stream s = Ok (Continue s') ->
  start_b s < len data_stream /\
  start_b s + 1 <= start_b s' /\
  1 <= code_size s'.
Proof.
  intros Hsize Hstep.
  apply lzw_step_continue in Hstep as (c & s1 & Hread & Hb & ->).
  destruct (lzw_bookkeeping_rest s1 c) as (-> & _).
  rewrite (lzw_branch_start_b _ _ _ _ _ Hb). cbn [advance start_b].
  split; [|split; [lia|]].
  - destruct (Z.lt_ge_cases (start_b s) (len data_stream)) as [|Hend];
      [assumption|].
    rewrite read_code_exhausted in Hread by assumption. discriminate.
  - assert (1 <= code_size s1).
    { destruct (Z.eq_dec c (cc_index gc_map)) as [->|Hc].
      - rewrite lzw_branch_clear in Hb. injection Hb as <-. cbn. lia.
      - apply lzw_branch_other in Hb as (_ & _ & ->); [|assumption].
        exact Hsize. }
    destruct (lzw_bookkeeping_code_size s1 c) as [(-> & _)|(-> & _)]; lia.
Qed.

(** Every iteration that continues moves the cursor forward, so the
    loop ends within [len data_stream + 1] iterations. *)
Lemma lzw_loop_terminates (fuel : nat) : forall s,
  1 <= code_size s ->
  len data_stream <= start_b s + Z.of_nat fuel ->
  exists r, lzw_loop gc_map min_code_size data_stream (S fuel) s = Some r.
Proof.
  induction fuel as [|fuel IH]; intros s Hsize Hfuel; cbn [lzw_loop];
    destruct (lzw_step gc_map min_code_size data_stream s) as [[s'|]|] eqn:Hstep;
    try (eexists; reflexivity);
    apply lzw_step_progress in Hstep as (Hlt & Hadv & Hsize'); try assumption.
  - lia.
  - apply IH; [assumption | lia].
Qed.

Lemma lzw_decode_terminates :
  exists r, lzw_decode gc_map min_code_size data_stream = Some r.
Proof.
  unfold lzw_decode. apply lzw_loop_terminates; cbn; unfold len; lia.
Qed.

End Termination.

Lemma image_data_stream_min_code_size (data : bytes) (mcs : Z) (stream : str) :
  image_data_stream data = Ok (mcs, stream) -> 0 <= mcs.
Proof.
  unfold image_data_stream. intros H. bind_cases H. injection H as <- _.
  unfold byte_val. apply N2Z.is_nonneg.
Qed.

(** The fuel given to the decoding loop always suffices. *)
Lemma extract_image_terminates (data : bytes) :
  exists r, extract_image data = Some r.
Proof.
  unfold extract_image.
  destruct (image_data_stream data) as [[mcs stream]|e] eqn:Hs;
    [|eexists; reflexivity].
  destruct (extract_global_colour_table data) as [gc_map|e];
    [|eexists; reflexivity].
  apply image_data_stream_min_code_size in Hs.
  destruct (lzw_decode_terminates gc_map mcs stream Hs) as [[out|e] ->];
    eexists; reflexivity.
Qed.

(** The image data region: everything from ten bytes after the position
    answered by [find]. *)
Lemma overrun_fails_extract_image (data : bytes) (sd : screen_descriptor) (L : byte) :
  extract_screen_descriptor data = Ok sd ->
  py_index (py_slice data (bytes_find image_separator data
                                      (13 + table_size_of sd) + 10) (len data))
           1 = Ok L ->
  overruns (py_slice data (bytes_find image_separator data
                                      (13 + table_size_of sd) + 10) (len data))
           1 L ->
  extract_image data = Some (Raise IndexError).
Proof.
  intros Hsd HL Hover. unfold extract_image, image_data_stream.
  rewrite Hsd. cbn [bind].
  set (image_bytes := py_slice data _ _) in *.
  destruct (py_index_in_range image_bytes 0) as [b0 ->].
  { apply py_index_lt in HL. lia. }
  cbn [bind]. rewrite HL. cbn [bind].
  rewrite overrun_raises_IndexError by assumption. reflexivity.
Qed.

(** C6, amended: a sub-block whose announced length runs past the end
    of the buffer makes the decode raise Python's [IndexError]; an
    iteration of the decoding loop that finds the bit stream exhausted
    raises [ValueError]; no [TruncatedStream] error exists, and for
    every input the loops end and the decode returns a value or raises
    one of the built-in exceptions. *)
Theorem truncated_input_raises_builtin :
  (forall data sd L,
      extract_screen_descriptor data = Ok sd ->
      py_index (py_slice data (bytes_find image_separator data
                                          (13 + table_size_of sd) + 10)
                         (len data)) 1 = Ok L ->
      overruns (py_slice data (bytes_find image_separator data
                                          (13 + table_size_of sd) + 10)
                         (len data)) 1 L ->
      extract_image data = Some (Raise IndexError)) /\
  (forall image_bytes start L acc,
      overruns image_bytes start L ->
      sub_block_loop image_bytes start L acc = Raise IndexError) /\
  (forall gc_map min_code_size data_stream fuel s,
      len data_stream <= start_b s ->
      lzw_loop gc_map min_code_size data_stream (S fuel) s
      = Some (Raise ValueError)) /\
  (forall data,
      exists r, extract_image data = Some r /\
                ~ fails_with r "TruncatedStream").
Proof.
  split; [|split; [|split]].
  - exact overrun_fails_extract_image.
  - intros image_bytes start L acc H. apply overrun_raises_IndexError. exact H.
  - intros gc_map mcs stream fuel s Hend. cbn [lzw_loop]. unfold lzw_step.
    rewrite read_code_exhausted by assumption. reflexivity.
  - intros data. destruct (extract_image_terminates data) as [r Hr].
    exists r. split; [exact Hr|].
    apply builtin_exceptions_only. cbn. intros H.
    repeat (destruct H as [H|H]; [discriminate H|]). exact H.
Qed.

(** C6, as stated, does not hold: [truncated_gif] ends inside a
    sub-block that announces three bytes, and the decode raises
    [IndexError]; [unterminated_gif] runs out of bits before any
    End-of-Information code, and the decode raises [ValueError]. *)
Lemma truncated_stream_raises_builtin :
  extract_image truncated_gif = Some (Raise IndexError) /\
  ~ fails_with (Raise (A := list (list pyval)) IndexError) "TruncatedStream" /\
  extract_image unterminated_gif = Some (Raise ValueError) /\
  ~ fails_with (Raise (A := list (list pyval)) ValueError) "TruncatedStream".
Proof.
  split; [reflexivity|]. split; [|split; [reflexivity|]];
    intros (e & He & Hname); injection He as <-; discriminate Hname.
Qed.

Lemma truncated_input_raises_builtin_witness :
  overruns [x02; x03; x44] 1 x03 /\
  extract_image truncated_gif = Some (Raise IndexError).
Proof.
  assert (H : overruns [x02; x03; x44] 1 x03)
    by (apply overruns_here; cbv; discriminate).
  split; [exact H|].
  refine (proj1 truncated_input_raises_builtin truncated_gif
    {| sd_width := 2; sd_height := 2; sd_gc_fl := 1; sd_cr := 1;
       sd_sort_fl := 0; sd_gc_size := 1; sd_bcolour_i := 0; sd_px_ratio := 0 |}
    x03 _ _ _).
  - reflexivity.
  - reflexivity.
  - exact H.
Defined.

(** ** The first code of the stream *)

(** C10, as stated, does not hold in its last part: the first code of
    [unreadable_descriptor_gif] is End-of-Information and the decoder
    returns the empty sequence, but [extract_image] then reads the image
    descriptor, whose packed byte [0x02] has too few digits, and raises
    [IndexError] instead of returning an empty image. *)
Lemma eoi_first_with_unreadable_descriptor :
  image_data_stream unreadable_descriptor_gif = Ok (2, str_lit "10100000") /\
  read_code (str_lit "10100000") (init_state 2)
  = Ok (cc_index minimal_colours + 1) /\
  lzw_decode minimal_colours 2 (str_lit "10100000") = Some (Ok []) /\
  extract_image_descriptor unreadable_descriptor_gif = Raise IndexError /\
  extract_image unreadable_descriptor_gif = Some (Raise IndexError) /\
  extract_image unreadable_descriptor_gif <> Some (Ok []).
Proof. repeat split; try reflexivity. vm_compute. discriminate. Qed.

(** C10, amended: the code table is bound by the Clear branch only.  In
    any state in which it is unbound, and so when the loop is entered,
    a code that is neither Clear nor End-of-Information makes the test
    [current_code < len(code_table)] raise [NameError], which ends the
    decode and [extract_image].  If the first code is
    End-of-Information the loop is left at once with nothing emitted;
    [extract_image] then goes on to read the image descriptor and
    returns the empty image when that read succeeds, and raises what
    that read raises otherwise. *)
Theorem first_code_must_be_clear (data : bytes) (mcs : Z) (stream : str)
  (gc_map : list pyval) (c : Z) :
  image_data_stream data = Ok (mcs, stream) ->
  extract_global_colour_table data = Ok gc_map ->
  read_code stream (init_state mcs) = Ok c ->
  (forall s c',
     code_table s = None ->
     read_code stream s = Ok c' ->
     c' <> cc_index gc_map -> c' <> cc_index gc_map + 1 ->
     lzw_step gc_map mcs stream s = Raise NameError) /\
  (c <> cc_index gc_map -> c <> cc_index gc_map + 1 ->
   lzw_decode gc_map mcs stream = Some (Raise NameError) /\
   extract_image data = Some (Raise NameError)) /\
  (c = cc_index gc_map + 1 ->
   lzw_decode gc_map mcs stream = Some (Ok []) /\
   (forall idesc, extract_image_descriptor data = Ok idesc ->
                  extract_image data = Some (Ok [])) /\
   (forall e, extract_image_descriptor data = Raise e ->
              extract_image data = Some (Raise e))).
Proof.
  intros Hstream Hgc Hread.
  assert (Hunbound : forall s c',
             code_table s = None ->
             read_code stream s = Ok c' ->
             c' <> cc_index gc_map -> c' <> cc_index gc_map + 1 ->
             lzw_step gc_map mcs stream s = Raise NameError).
  { intros s c' Hnone Hread' Hcc Heoi. unfold lzw_step.
    rewrite Hread'. cbn [bind]. unfold lzw_branch.
    destruct (Z.eqb_spec c' (cc_index gc_map)); [contradiction|].
    destruct (Z.eqb_spec c' (cc_index gc_map + 1)); [contradiction|].
    cbn [advance code_table]. rewrite Hnone. reflexivity. }
  split; [exact Hunbound|]. split.
  - intros Hcc Heoi.
    assert (Hdec : lzw_decode gc_map mcs stream = Some (Raise NameError)).
    { unfold lzw_decode. cbn [lzw_loop].
      rewrite (Hunbound (init_state mcs) c eq_refl Hread Hcc Heoi).
      reflexivity. }
    split; [exact Hdec|].
    unfold extract_image. rewrite Hstream, Hgc, Hdec. reflexivity.
  - intros ->.
    assert (Hdec : lzw_decode gc_map mcs stream = Some (Ok [])).
    { unfold lzw_decode. cbn [lzw_loop]. unfold lzw_step.
      rewrite Hread. cbn [bind]. unfold lzw_branch.
      destruct (Z.eqb_spec (cc_index gc_map + 1) (cc_index gc_map)); [lia|].
      rewrite Z.eqb_refl. reflexivity. }
    split; [exact Hdec|]. split.
    + intros idesc Hdesc. unfold extract_image.
      rewrite Hstream, Hgc, Hdec, Hdesc. reflexivity.
    + intros e Hdesc. unfold extract_image.
      rewrite Hstream, Hgc, Hdec, Hdesc. reflexivity.
Qed.

Lemma first_code_must_be_clear_witness :
  extract_image unprimed_gif = Some (Raise NameError) /\
  extract_image empty_gif = Some (Ok []) /\
  extract_image unreadable_descriptor_gif = Some (Raise IndexError).
Proof.
  split; [|split].
  - refine (proj2 (proj1 (proj2 (first_code_must_be_clear unprimed_gif 2
              (str_lit "000000100010110010100000") minimal_colours 0 _ _ _))
              _ _)); first [reflexivity | cbv; discriminate].
  - refine (proj1 (proj2 (proj2 (proj2 (first_code_must_be_clear empty_gif 2
              (str_lit "10100000") minimal_colours 5 _ _ _)) _))
              {| id_left := 0; id_top := 0; id_width := 2; id_height := 2;
                 id_lc_fl := 0; id_itl_fl := 0; id_sort_fl := 0; id_res := 0;
                 id_lc_size := 0 |} _);
      reflexivity.
  - refine (proj2 (proj2 (proj2 (proj2 (first_code_must_be_clear
              unreadable_descriptor_gif 2 (str_lit "10100000")
              minimal_colours 5 _ _ _)) _)) IndexError _);
      reflexivity.
Defined.

(** * Further properties of the code *)

(** ** Sequence operations at non-negative positions *)

(** Turns [Z.to_nat] of a literal into the literal. *)
Ltac to_nat_literals :=
  repeat match goal with
         | |- context [Z.to_nat ?z] =>
             let n := eval vm_compute in (Z.to_nat z) in
             change (Z.to_nat z) with n
         end.

Lemma py_index_nonneg {A} (l : list A) (i : Z) :
  0 <= i ->
  py_index l i = match nth_error l (Z.to_nat i) with
                 | Some x => Ok x
                 | None => Raise IndexError
                 end.
Proof.
  intros Hi. destruct (nth_error l (Z.to_nat i)) as [x|] eqn:Hnth.
  - apply nth_error_py_index in Hnth. rewrite Z2Nat.id in Hnth; assumption.
  - apply py_index_out_of_range. apply nth_error_None in Hnth.
    unfold len. lia.
Qed.

Lemma py_slice_nonneg {A} (l : list A) (a b : Z) :
  0 <= a <= b ->
  py_slice l a b = firstn (Z.to_nat (b - a)) (skipn (Z.to_nat a) l).
Proof.
  intros Hab. unfold py_slice, slice_bound. pose proof (len_nonneg l) as Hl.
  assert ((a <? 0) = false) as -> by (apply Z.ltb_ge; lia).
  assert ((b <? 0) = false) as -> by (apply Z.ltb_ge; lia).
  cbv zeta. unfold len in *.
  destruct (Z.le_gt_cases (Z.of_nat (List.length l)) a) as [Hpast|Hin].
  - rewrite !skipn_all2 by lia. rewrite !firstn_nil. reflexivity.
  - replace (Z.to_nat (Z.min (Z.max 0 a) (Z.of_nat (List.length l))))
      with (Z.to_nat a) by lia.
    destruct (Z.le_gt_cases b (Z.of_nat (List.length l))) as [Hb|Hb].
    + f_equal. lia.
    + rewrite !firstn_all2; [reflexivity | |]; rewrite length_skipn; lia.
Qed.

Lemma byte_val_range (b : byte) : 0 <= byte_val b < 256.
Proof.
  unfold byte_val. pose proof (Byte.to_N_bounded b). lia.
Qed.

(** ** The signature *)

Lemma decode_ascii_ok (bs : bytes) : forall position,
  Forall (fun b => byte_val b < 128) bs ->
  decode_ascii bs position = Decoded (map ascii_of_byte bs).
Proof.
  induction bs as [|b bs IH]; intros position Hall; [reflexivity|].
  inversion Hall as [|? ? Hb Hrest]; subst. cbn [decode_ascii map].
  destruct (Z.ltb_spec (byte_val b) 128); [|lia].
  rewrite IH by assumption. reflexivity.
Qed.

Lemma decode_ascii_error (good bad_rest : bytes) (bad : byte) : forall position,
  Forall (fun b => byte_val b < 128) good ->
  128 <= byte_val bad ->
  decode_ascii (good ++ bad :: bad_rest) position
  = UnicodeDecodeError (position + len good).
Proof.
  induction good as [|b good IH]; intros position Hall Hbad; cbn [app decode_ascii].
  - destruct (Z.ltb_spec (byte_val bad) 128); [lia|]. f_equal. cbn. lia.
  - inversion Hall as [|? ? Hb Hrest]; subst.
    destruct (Z.ltb_spec (byte_val b) 128); [|lia].
    rewrite IH by assumption. f_equal. unfold len. cbn [List.length]. lia.
Qed.

Lemma byte_of_ascii_is_ascii (c : ascii) :
  (nat_of_ascii c < 128)%nat -> byte_val (byte_of_ascii c) < 128.
Proof.
  intros Hc. unfold byte_val.
  pose proof (byte_of_ascii_via_nat c) as Hvia. symmetry in Hvia.
  apply Byte.to_of_nat in Hvia. rewrite Byte.to_N_via_nat, Hvia. lia.
Qed.

(** The signature read back from a file that starts with the six ASCII
    characters [s] is [s], whatever follows. *)
Theorem extract_header_round_trip (s : str) (rest : bytes) :
  List.length s = 6%nat ->
  Forall (fun c => (nat_of_ascii c < 128)%nat) s ->
  extract_header (encode_ascii s ++ rest) = Decoded s.
Proof.
  intros Hlen Hascii. unfold extract_header.
  rewrite py_slice_nonneg by lia. cbn [skipn Z.to_nat Z.sub].
  change (Z.to_nat (6 - 0)) with 6%nat.
  assert (Hl : List.length (encode_ascii s) = 6%nat)
    by (unfold encode_ascii; rewrite length_map; exact Hlen).
  rewrite firstn_app, Hl, Nat.sub_diag, firstn_O, app_nil_r.
  rewrite firstn_all2 by lia.
  rewrite decode_ascii_ok.
  - unfold encode_ascii. rewrite map_map. f_equal. 
    erewrite map_ext; [apply map_id|]. apply ascii_of_byte_of_ascii.
  - unfold encode_ascii. apply Forall_map.
    eapply Forall_impl; [|exact Hascii]. apply byte_of_ascii_is_ascii.
Qed.

Lemma extract_header_round_trip_witness :
  extract_header (encode_ascii (str_lit "GIF89a") ++ [x02; x00])
  = Decoded (str_lit "GIF89a").
Proof.
  apply extract_header_round_trip; [reflexivity|].
  repeat constructor.
Defined.

(** [extract_header] never reads past the sixth byte and never fails on
    a short buffer: from a buffer whose first six bytes (or all of them,
    if fewer) are ASCII it returns that many characters, so the empty
    buffer gives the empty text. *)
Theorem extract_header_short_buffer (data : bytes) :
  Forall (fun b => byte_val b < 128) (firstn 6 data) ->
  extract_header data = Decoded (map ascii_of_byte (firstn 6 data)) /\
  len (map ascii_of_byte (firstn 6 data)) = Z.min 6 (len data).
Proof.
  intros Hascii. unfold extract_header.
  rewrite py_slice_nonneg by lia. cbn [skipn Z.to_nat Z.sub].
  change (Z.to_nat (6 - 0)) with 6%nat.
  split; [apply decode_ascii_ok; assumption|].
  unfold len. rewrite length_map, length_firstn. lia.
Qed.

Lemma extract_header_short_buffer_witness :
  extract_header [x47; x49] = Decoded (str_lit "GI") /\
  extract_header [] = Decoded [].
Proof.
  split.
  - apply (extract_header_short_buffer [x47; x49]). repeat constructor.
  - apply (extract_header_short_buffer []). constructor.
Defined.

(** A byte of [0x80] or more among the first six makes [extract_header]
    fail with [UnicodeDecodeError] at the position of the first such
    byte; bytes from the seventh on are never looked at. *)
Theorem extract_header_non_ascii (good : bytes) (bad : byte) (rest : bytes) :
  len good < 6 ->
  Forall (fun b => byte_val b < 128) good ->
  128 <= byte_val bad ->
  extract_header (good ++ bad :: rest) = UnicodeDecodeError (len good).
Proof.
  intros Hlen Hgood Hbad. unfold extract_header.
  rewrite py_slice_nonneg by lia. cbn [skipn Z.to_nat Z.sub].
  change (Z.to_nat (6 - 0)) with 6%nat.
  rewrite firstn_app. rewrite (firstn_all2 (n := 6) good) by (unfold len in Hlen; lia).
  destruct (6 - List.length good)%nat as [|k] eqn:Hk; [unfold len in Hlen; lia|].
  cbn [firstn]. rewrite decode_ascii_error by assumption. reflexivity.
Qed.

Lemma extract_header_non_ascii_witness :
  extract_header ([x47; x49; x46] ++ xe9 :: [x39; x61; x02])
  = UnicodeDecodeError 3.
Proof.
  apply (extract_header_non_ascii [x47; x49; x46] xe9 [x39; x61; x02]).
  - cbv. reflexivity.
  - repeat constructor.
  - cbv. discriminate.
Defined.

(** ** The logical screen descriptor on arbitrary buffers *)

Lemma extract_screen_descriptor_packed (data : bytes) :
  extract_screen_descriptor data =
  (bcolour_i <- py_index data 11 ;;
   px_ratio <- py_index data 12 ;;
   b10 <- py_index data 10 ;;
   fields <- packed_screen_fields b10 ;;
   Ok {| sd_width := int_from_bytes_little (py_slice data 6 8);
         sd_height := int_from_bytes_little (py_slice data 8 10);
         sd_gc_fl := fst (fst (fst fields));
         sd_cr := snd (fst (fst fields));
         sd_sort_fl := snd (fst fields);
         sd_gc_size := snd fields;
         sd_bcolour_i := byte_val bcolour_i;
         sd_px_ratio := byte_val px_ratio |}).
Proof.
  unfold extract_screen_descriptor.
  destruct (py_index data 11) as [b11|]; [|reflexivity].
  destruct (py_index data 12) as [b12|]; [|reflexivity].
  destruct (py_index data 10) as [b10|]; [|reflexivity].
  cbn [bind]. unfold packed_screen_fields. cbv zeta.
  repeat match goal with
         | |- bind ?m _ = bind (bind ?m _) _ =>
             destruct m; cbn [bind]; [|reflexivity]
         end.
  reflexivity.
Qed.

(** What the reads in the packed byte give, byte by byte: they succeed
    from [0x20] on, the first digit read is always 1, and with the top
    bit set all four fields are the published ones. *)
Lemma packed_screen_fields_cases (b : byte) :
  (byte_val b < 32 /\ exists e, packed_screen_fields b = Raise e) \/
  (32 <= byte_val b /\
   exists cr sort_fl gc_size,
     packed_screen_fields b = Ok (1, cr, sort_fl, gc_size) /\
     0 <= cr <= 7 /\ 0 <= sort_fl <= 1 /\ 0 <= gc_size <= 7 /\
     (128 <= byte_val b ->
      (1, cr, sort_fl, gc_size) = published_screen_fields (byte_val b))).
Proof.
  destruct b;
    first [ left; split; [reflexivity | eexists; reflexivity]
          | right; split; [cbv; discriminate|];
            do 3 eexists; split; [reflexivity|];
            repeat split; try (cbv; discriminate);
            intros H; first [reflexivity | exfalso; apply H; reflexivity] ].
Qed.

Lemma int_from_bytes_little_two (bs : bytes) :
  (List.length bs <= 2)%nat -> 0 <= int_from_bytes_little bs < 65536.
Proof.
  destruct bs as [|b0 [|b1 [|b2 bs]]]; cbn [List.length int_from_bytes_little fold_right];
    intros Hlen; try lia.
  - pose proof (byte_val_range b0). lia.
  - pose proof (byte_val_range b0). pose proof (byte_val_range b1). lia.
Qed.

Lemma py_slice_length {A} (l : list A) (a b : Z) :
  0 <= a <= b -> (List.length (py_slice l a b) <= Z.to_nat (b - a))%nat.
Proof.
  intros Hab. rewrite py_slice_nonneg by assumption.
  rewrite length_firstn. lia.
Qed.

Lemma extract_screen_descriptor_short (data : bytes) :
  len data < 13 -> extract_screen_descriptor data = Raise IndexError.
Proof.
  intros Hlen. unfold extract_screen_descriptor.
  rewrite (py_index_nonneg data 11), (py_index_nonneg data 12) by lia.
  destruct (nth_error data (Z.to_nat 11)) as [b11|]; [|reflexivity].
  cbn [bind].
  assert (nth_error data (Z.to_nat 12) = None) as ->
      by (apply nth_error_None; unfold len in Hlen; lia).
  reflexivity.
Qed.

Lemma extract_screen_descriptor_long (data : bytes) (sd : screen_descriptor) :
  extract_screen_descriptor data = Ok sd -> 13 <= len data.
Proof.
  intros Hsd. destruct (Z.lt_ge_cases (len data) 13) as [Hshort|]; [|assumption].
  apply extract_screen_descriptor_short in Hshort. congruence.
Qed.

(** A buffer of fewer than 13 bytes makes [extract_screen_descriptor],
    and with it every function that starts by calling it, raise
    [IndexError]. *)
Theorem short_buffer_raises_IndexError (data : bytes) :
  len data < 13 ->
  extract_screen_descriptor data = Raise IndexError /\
  extract_global_colour_table data = Raise IndexError /\
  extract_image_descriptor data = Raise IndexError /\
  extract_image data = Some (Raise IndexError).
Proof.
  intros Hlen.
  pose proof (extract_screen_descriptor_short data Hlen) as Hsd.
  repeat split.
  - exact Hsd.
  - unfold extract_global_colour_table. rewrite Hsd. reflexivity.
  - unfold extract_image_descriptor. rewrite Hsd. reflexivity.
  - unfold extract_image, image_data_stream. rewrite Hsd. reflexivity.
Qed.

Lemma short_buffer_raises_IndexError_witness :
  extract_image (firstn 12 minimal_gif) = Some (Raise IndexError).
Proof.
  apply (short_buffer_raises_IndexError (firstn 12 minimal_gif)).
  cbv. reflexivity.
Defined.

(** The ranges of the fields of a returned screen descriptor. *)
Lemma screen_descriptor_fields (data : bytes) (sd : screen_descriptor) :
  extract_screen_descriptor data = Ok sd ->
  sd_gc_fl sd = 1 /\
  0 <= sd_cr sd <= 7 /\ 0 <= sd_sort_fl sd <= 1 /\ 0 <= sd_gc_size sd <= 7 /\
  0 <= sd_width sd < 65536 /\ 0 <= sd_height sd < 65536 /\
  0 <= sd_bcolour_i sd < 256 /\ 0 <= sd_px_ratio sd < 256.
Proof.
  intros Hsd. rewrite extract_screen_descriptor_packed in Hsd.
  destruct (py_index data 11) as [b11|]; [|discriminate]. cbn [bind] in Hsd.
  destruct (py_index data 12) as [b12|]; [|discriminate]. cbn [bind] in Hsd.
  destruct (py_index data 10) as [b10|]; [|discriminate]. cbn [bind] in Hsd.
  destruct (packed_screen_fields_cases b10)
    as [(_ & e & He)|(_ & cr & sort_fl & gc_size & He & Hcr & Hsort & Hsize & _)];
    rewrite He in Hsd; [discriminate|].
  cbn [bind] in Hsd. injection Hsd as <-.
  cbn [sd_gc_fl sd_cr sd_sort_fl sd_gc_size sd_width sd_height sd_bcolour_i
       sd_px_ratio fst snd].
  pose proof (int_from_bytes_little_two (py_slice data 6 8)
                (py_slice_length data 6 8 ltac:(lia))).
  pose proof (int_from_bytes_little_two (py_slice data 8 10)
                (py_slice_length data 8 10 ltac:(lia))).
  pose proof (byte_val_range b11). pose proof (byte_val_range b12).
  repeat split; solve [reflexivity | lia].
Qed.

(** [extract_screen_descriptor] returns exactly on the buffers of at
    least 13 bytes whose packed byte is [0x20] or more.  What it returns
    then has the global-colour flag 1, whatever the top bit of the
    packed byte, the other packed fields within their three-bit and
    one-bit ranges, and 16-bit sizes. *)
Theorem extract_screen_descriptor_returns (data : bytes) :
  ((exists sd, extract_screen_descriptor data = Ok sd) <->
   (13 <= len data /\
    exists b10, py_index data 10 = Ok b10 /\ 32 <= byte_val b10)) /\
  (forall sd, extract_screen_descriptor data = Ok sd ->
     sd_gc_fl sd = 1 /\
     0 <= sd_cr sd <= 7 /\ 0 <= sd_sort_fl sd <= 1 /\ 0 <= sd_gc_size sd <= 7 /\
     0 <= sd_width sd < 65536 /\ 0 <= sd_height sd < 65536 /\
     0 <= sd_bcolour_i sd < 256 /\ 0 <= sd_px_ratio sd < 256).
Proof.
  split; [split|].
  - intros [sd Hsd].
    split; [eapply extract_screen_descriptor_long; eassumption|].
    rewrite extract_screen_descriptor_packed in Hsd.
    destruct (py_index data 11); [|discriminate]. cbn [bind] in Hsd.
    destruct (py_index data 12); [|discriminate]. cbn [bind] in Hsd.
    destruct (py_index data 10) as [b10|]; [|discriminate]. cbn [bind] in Hsd.
    exists b10. split; [reflexivity|].
    destruct (packed_screen_fields_cases b10) as [(_ & e & He)|(Hb & _)];
      [|exact Hb].
    rewrite He in Hsd. discriminate.
  - intros (Hlen & b10 & Hb10 & Hb).
    rewrite extract_screen_descriptor_packed.
    destruct (py_index_in_range data 11) as [b11 ->]; [lia|].
    destruct (py_index_in_range data 12) as [b12 ->]; [lia|].
    rewrite Hb10. cbn [bind].
    destruct (packed_screen_fields_cases b10)
      as [(Hlt & _)|(_ & cr & sort_fl & gc_size & -> & _)]; [lia|].
    eexists. reflexivity.
  - apply screen_descriptor_fields.
Qed.

Lemma extract_screen_descriptor_returns_witness :
  (exists sd, extract_screen_descriptor minimal_gif = Ok sd) /\
  sd_gc_fl {| sd_width := 2; sd_height := 2; sd_gc_fl := 1; sd_cr := 6;
              sd_sort_fl := 0; sd_gc_size := 0; sd_bcolour_i := 0;
              sd_px_ratio := 0 |} = 1.
Proof.
  split.
  - apply (proj1 (extract_screen_descriptor_returns minimal_gif)).
    split; [cbv; discriminate|]. exists x91. split; [reflexivity|].
    cbv. discriminate.
  - apply (proj2 (extract_screen_descriptor_returns local_table_gif)).
    reflexivity.
Defined.

(** On a buffer whose packed byte has the top bit set the descriptor is
    the published one: little-endian width and height from bytes 6-9,
    the four packed fields of byte 10, and bytes 11 and 12. *)
Theorem extract_screen_descriptor_top_bit_set
  (s0 s1 s2 s3 s4 s5 w0 w1 h0 h1 packed bcolour ratio : byte) (rest : bytes) :
  128 <= byte_val packed ->
  exists sd,
    extract_screen_descriptor
      ([s0; s1; s2; s3; s4; s5; w0; w1; h0; h1; packed; bcolour; ratio] ++ rest)
    = Ok sd /\
    sd_width sd = byte_val w0 + 256 * byte_val w1 /\
    sd_height sd = byte_val h0 + 256 * byte_val h1 /\
    screen_fields sd = published_screen_fields (byte_val packed) /\
    sd_bcolour_i sd = byte_val bcolour /\
    sd_px_ratio sd = byte_val ratio.
Proof.
  intros Htop. rewrite extract_screen_descriptor_packed.
  rewrite !py_index_nonneg by lia. rewrite !py_slice_nonneg by lia.
  to_nat_literals. cbn [app nth_error bind].
  destruct (packed_screen_fields_cases packed)
    as [(Hlt & _)|(_ & cr & sort_fl & gc_size & -> & _ & _ & _ & Hpub)]; [lia|].
  cbn [bind]. eexists. split; [reflexivity|].
  cbn [sd_width sd_height sd_bcolour_i sd_px_ratio screen_fields sd_gc_fl sd_cr
       sd_sort_fl sd_gc_size fst snd].
  repeat split.
  - cbn [firstn skipn int_from_bytes_little fold_right]. lia.
  - cbn [firstn skipn int_from_bytes_little fold_right]. lia.
  - apply Hpub. exact Htop.
Qed.

Lemma extract_screen_descriptor_top_bit_set_witness :
  exists sd,
    extract_screen_descriptor
      ([x47; x49; x46; x38; x39; x61; x02; x00; x02; x00; x91; x00; x00]
       ++ skipn 13 minimal_gif) = Ok sd /\
    sd_width sd = byte_val x02 + 256 * byte_val x00 /\
    sd_height sd = byte_val x02 + 256 * byte_val x00 /\
    screen_fields sd = published_screen_fields (byte_val x91) /\
    sd_bcolour_i sd = byte_val x00 /\
    sd_px_ratio sd = byte_val x00.
Proof.
  apply extract_screen_descriptor_top_bit_set. cbv. discriminate.
Defined.

(** ** The global colour table on arbitrary buffers *)

Lemma nth_error_seq_0 (n k : nat) :
  (k < n)%nat -> nth_error (seq 0 n) k = Some k.
Proof.
  intros Hk. rewrite (nth_error_nth' _ 0%nat) by (rewrite length_seq; exact Hk).
  rewrite seq_nth by exact Hk. reflexivity.
Qed.

Lemma firstn_3_skipn {A} (l : list A) (m : nat) :
  (m + 3 <= List.length l)%nat ->
  exists a b c,
    nth_error l m = Some a /\ nth_error l (m + 1) = Some b /\
    nth_error l (m + 2) = Some c /\ firstn 3 (skipn m l) = [a; b; c].
Proof.
  intros Hlen. pose proof (length_skipn m l) as Hskip.
  pose proof (nth_error_skipn m l 0) as H0.
  pose proof (nth_error_skipn m l 1) as H1.
  pose proof (nth_error_skipn m l 2) as H2.
  rewrite Nat.add_0_r in H0.
  destruct (skipn m l) as [|a [|b [|c rest]]]; cbn [List.length] in Hskip; try lia.
  exists a, b, c. cbn in H0, H1, H2. repeat split; congruence.
Qed.

Lemma colour_table_slice (data : bytes) (size : Z) :
  0 <= size ->
  py_slice data 13 (13 + size) = firstn (Z.to_nat size) (skipn 13 data).
Proof.
  intros Hsize. rewrite py_slice_nonneg by lia.
  replace (13 + size - 13) with size by lia. reflexivity.
Qed.

(** The entries of the table are the consecutive groups of three bytes
    that follow the 13-byte header: on a buffer that holds the whole
    table, [2 ** (gc_size + 1)] entries, entry [i] being the bytes at
    [13 + 3 i], [13 + 3 i + 1] and [13 + 3 i + 2]. *)
Theorem extract_global_colour_table_complete (data : bytes) (sd : screen_descriptor) :
  extract_screen_descriptor data = Ok sd ->
  13 + table_size_of sd <= len data ->
  exists gc_map,
    extract_global_colour_table data = Ok gc_map /\
    len gc_map = 2 ^ (sd_gc_size sd + 1) /\
    forall i, 0 <= i < len gc_map ->
      exists r g b,
        py_index data (13 + 3 * i) = Ok r /\
        py_index data (13 + 3 * i + 1) = Ok g /\
        py_index data (13 + 3 * i + 2) = Ok b /\
        py_index gc_map i
        = Ok (PList [PInt (byte_val r); PInt (byte_val g); PInt (byte_val b)]).
Proof.
  intros Hsd Hlen. unfold extract_global_colour_table. rewrite Hsd. cbn [bind].
  pose proof (table_size_nonneg sd) as Hts.
  set (n := 2 ^ (sd_gc_size sd + 1)) in *.
  assert (Hn : table_size_of sd = 3 * n) by reflexivity.
  rewrite colour_table_slice by assumption.
  set (table_bytes := firstn (Z.to_nat (table_size_of sd)) (skipn 13 data)).
  assert (Htb : len table_bytes = 3 * n).
  { unfold len, table_bytes. rewrite length_firstn, length_skipn.
    unfold len in Hlen. lia. }
  unfold py_range. rewrite Htb.
  replace ((3 * n - 0 + 3 - 1) / 3) with n
    by (apply (Z.div_unique_pos _ 3 n 2); lia).
  eexists. split; [reflexivity|]. split.
  { unfold len. rewrite !length_map, length_seq. lia. }
  intros i Hi. unfold len in Hi. rewrite !length_map, length_seq in Hi.
  destruct (firstn_3_skipn data (13 + 3 * Z.to_nat i)) as (r & g & b & Hr & Hg & Hb & Hrgb).
  { unfold len in Hlen. lia. }
  exists r, g, b.
  rewrite !py_index_nonneg by lia.
  replace (Z.to_nat (13 + 3 * i)) with (13 + 3 * Z.to_nat i)%nat by lia.
  replace (Z.to_nat (13 + 3 * i + 1)) with (13 + 3 * Z.to_nat i + 1)%nat by lia.
  replace (Z.to_nat (13 + 3 * i + 2)) with (13 + 3 * Z.to_nat i + 2)%nat by lia.
  rewrite Hr, Hg, Hb. repeat split.
  rewrite !nth_error_map, nth_error_seq_0 by lia. cbn [option_map].
  do 3 f_equal.
  rewrite py_slice_nonneg by lia.
  replace (Z.to_nat (0 + 3 * Z.of_nat (Z.to_nat i) + 3 - (0 + 3 * Z.of_nat (Z.to_nat i))))
    with 3%nat by lia.
  replace (Z.to_nat (0 + 3 * Z.of_nat (Z.to_nat i))) with (3 * Z.to_nat i)%nat by lia.
  unfold table_bytes.
  rewrite skipn_firstn_comm, firstn_firstn, skipn_skipn.
  replace (Nat.min 3 (Z.to_nat (table_size_of sd) - 3 * Z.to_nat i)) with 3%nat by lia.
  replace (3 * Z.to_nat i + 13)%nat with (13 + 3 * Z.to_nat i)%nat by lia.
  rewrite Hrgb. reflexivity.
Qed.

Lemma extract_global_colour_table_complete_witness :
  exists gc_map,
    extract_global_colour_table minimal_gif = Ok gc_map /\
    len gc_map = 2 ^ (1 + 1) /\
    forall i, 0 <= i < len gc_map ->
      exists r g b,
        py_index minimal_gif (13 + 3 * i) = Ok r /\
        py_index minimal_gif (13 + 3 * i + 1) = Ok g /\
        py_index minimal_gif (13 + 3 * i + 2) = Ok b /\
        py_index gc_map i
        = Ok (PList [PInt (byte_val r); PInt (byte_val g); PInt (byte_val b)]).
Proof.
  apply (extract_global_colour_table_complete minimal_gif
    {| sd_width := 2; sd_height := 2; sd_gc_fl := 1; sd_cr := 1;
       sd_sort_fl := 0; sd_gc_size := 1; sd_bcolour_i := 0; sd_px_ratio := 0 |}).
  - reflexivity.
  - cbv. discriminate.
Defined.

(** [extract_global_colour_table] adds no failure of its own: it raises
    only what [extract_screen_descriptor] raises.  On a buffer that ends
    inside the table it returns the entries that are there, the last
    one possibly with one or two components only: a third, rounded up,
    of the table bytes present, never more than [2 ** (gc_size + 1)],
    itself at most 256. *)
Theorem extract_global_colour_table_truncated (data : bytes) :
  (forall e, extract_global_colour_table data = Raise e <->
             extract_screen_descriptor data = Raise e) /\
  (forall sd, extract_screen_descriptor data = Ok sd ->
     exists gc_map,
       extract_global_colour_table data = Ok gc_map /\
       len gc_map = (Z.min (table_size_of sd) (len data - 13) + 2) / 3 /\
       len gc_map <= 2 ^ (sd_gc_size sd + 1) <= 256 /\
       Forall (fun colour => exists l, colour = PList l /\ 1 <= len l <= 3)
              gc_map).
Proof.
  split.
  - intros e. unfold extract_global_colour_table.
    destruct (extract_screen_descriptor data); cbn [bind]; split;
      congruence.
  - intros sd Hsd. unfold extract_global_colour_table. rewrite Hsd. cbn [bind].
    pose proof (table_size_nonneg sd) as Hts.
    pose proof (extract_screen_descriptor_long data sd Hsd) as Hlen.
    destruct (screen_descriptor_fields data sd Hsd) as (_ & _ & _ & Hsize & _).
    rewrite colour_table_slice by assumption.
    set (table_bytes := firstn (Z.to_nat (table_size_of sd)) (skipn 13 data)).
    assert (Htb : len table_bytes = Z.min (table_size_of sd) (len data - 13)).
    { unfold len, table_bytes. rewrite length_firstn, length_skipn.
      unfold len in Hlen. lia. }
    eexists. split; [reflexivity|].
    assert (Hcount : len (py_range 0 (len table_bytes) 3)
                     = (len table_bytes + 2) / 3).
    { unfold py_range, len at 1. rewrite length_map, length_seq.
      replace (len table_bytes - 0 + 3 - 1) with (len table_bytes + 2) by lia.
      pose proof (len_nonneg table_bytes).
      apply Z2Nat.id. apply Z.div_pos; lia. }
    assert (Hpow : 2 ^ (sd_gc_size sd + 1) <= 256).
    { change 256 with (2 ^ (7 + 1)). apply Z.pow_le_mono_r; lia. }
    split; [|split; [split|]].
    + unfold len at 1. rewrite length_map. fold (len (py_range 0 (len table_bytes) 3)).
      rewrite Hcount, Htb. reflexivity.
    + unfold len at 1. rewrite length_map. fold (len (py_range 0 (len table_bytes) 3)).
      rewrite Hcount, Htb. unfold table_size_of in *.
      assert ((Z.min (3 * 2 ^ (sd_gc_size sd + 1)) (len data - 13) + 2) / 3
              < 2 ^ (sd_gc_size sd + 1) + 1)
        by (apply Z.div_lt_upper_bound; lia).
      lia.
    + exact Hpow.
    + apply Forall_map. unfold py_range. apply Forall_map.
      apply Forall_forall. intros k Hk. apply in_seq in Hk.
      eexists. split; [reflexivity|].
      rewrite py_slice_nonneg by lia.
      unfold len at 1 2. rewrite length_map, length_firstn, length_skipn.
      replace (len table_bytes - 0 + 3 - 1) with (len table_bytes + 2) in Hk by lia.
      pose proof (len_nonneg table_bytes) as Hnn.
      assert (3 * Z.of_nat k < len table_bytes).
      { destruct Hk as [_ Hk]. cbn [Nat.add] in Hk.
        assert (Z.of_nat k < (len table_bytes + 2) / 3)
          by (rewrite <- (Z2Nat.id ((len table_bytes + 2) / 3));
              [lia | apply Z.div_pos; lia]).
        assert (3 * ((len table_bytes + 2) / 3) <= len table_bytes + 2)
          by (apply Z.mul_div_le; lia).
        lia. }
      unfold len in *. lia.
Qed.

Lemma extract_global_colour_table_truncated_witness :
  exists gc_map,
    extract_global_colour_table (firstn 17 minimal_gif) = Ok gc_map /\
    len gc_map = (Z.min (3 * 2 ^ (1 + 1)) (len (firstn 17 minimal_gif) - 13) + 2) / 3 /\
    len gc_map <= 2 ^ (1 + 1) <= 256 /\
    Forall (fun colour => exists l, colour = PList l /\ 1 <= len l <= 3) gc_map.
Proof.
  apply (proj2 (extract_global_colour_table_truncated (firstn 17 minimal_gif))
    {| sd_width := 2; sd_height := 2; sd_gc_fl := 1; sd_cr := 1;
       sd_sort_fl := 0; sd_gc_size := 1; sd_bcolour_i := 0; sd_px_ratio := 0 |}).
  reflexivity.
Defined.

(** ** The image descriptor on arbitrary buffers *)

Lemma image_descriptor_at_packed (data : bytes) (start : Z) :
  image_descriptor_at data start =
  (b9 <- py_index data (start + 9) ;;
   fields <- packed_image_fields b9 ;;
   Ok {| id_left := int_from_bytes_little (py_slice data (start + 1) (start + 3));
         id_top := int_from_bytes_little (py_slice data (start + 3) (start + 5));
         id_width := int_from_bytes_little (py_slice data (start + 5) (start + 7));
         id_height := int_from_bytes_little (py_slice data (start + 7) (start + 9));
         id_lc_fl := fst (fst (fst (fst fields)));
         id_itl_fl := snd (fst (fst (fst fields)));
         id_sort_fl := snd (fst (fst fields));
         id_res := snd (fst fields);
         id_lc_size := snd fields |}).
Proof.
  unfold image_descriptor_at.
  destruct (py_index data (start + 9)) as [b9|]; [|reflexivity].
  cbn [bind]. unfold packed_image_fields. cbv zeta.
  destruct (list_eq_dec ascii_dec _ _); [reflexivity|].
  repeat match goal with
         | |- bind ?m _ = bind (bind ?m _) _ =>
             destruct m; cbn [bind]; [|reflexivity]
         end.
  reflexivity.
Qed.

(** What the reads in the packed byte of the image descriptor give, byte
    by byte. *)
Lemma packed_image_fields_cases (b : byte) :
  (0 < byte_val b < 16 /\ exists e, packed_image_fields b = Raise e) \/
  (byte_val b = 0 /\ packed_image_fields b = Ok (0, 0, 0, 0, 0)) \/
  (16 <= byte_val b /\
   exists itl_fl sort_fl res lc_size,
     packed_image_fields b = Ok (1, itl_fl, sort_fl, res, lc_size) /\
     0 <= itl_fl <= 1 /\ 0 <= sort_fl <= 1 /\ 0 <= lc_size <= 7 /\
     0 <= res <= 3 /\ res / 2 = sort_fl /\
     (128 <= byte_val b ->
      itl_fl = Z.land (Z.shiftr (byte_val b) 6) 1 /\
      sort_fl = Z.land (Z.shiftr (byte_val b) 5) 1 /\
      res = Z.land (Z.shiftr (byte_val b) 4) 3 /\
      lc_size = Z.land (Z.shiftr (byte_val b) 1) 7)).
Proof.
  destruct b;
    first [ left; split; [split; reflexivity | eexists; reflexivity]
          | right; left; split; reflexivity
          | right; right; split; [cbv; discriminate|];
            do 4 eexists; split; [reflexivity|];
            do 4 (split; [split; cbv; discriminate|]);
            split; [reflexivity|];
            intros H;
            first [ exfalso; apply H; reflexivity
                  | repeat split; reflexivity ] ].
Qed.

Lemma find_from_first (b : byte) (before after : bytes) : forall i,
  Forall (fun x => x <> b) before ->
  find_from b (before ++ b :: after) i = i + len before.
Proof.
  induction before as [|x before IH]; intros i Hbefore; cbn [app find_from].
  - replace (Byte.eqb b b) with true
      by (symmetry; apply Byte.byte_dec_lb; reflexivity).
    cbn. lia.
  - inversion Hbefore as [|? ? Hx Hrest]; subst.
    destruct (Byte.eqb x b) eqn:Heq.
    + apply Byte.byte_dec_bl in Heq. contradiction.
    + rewrite IH by assumption. unfold len. cbn [List.length]. lia.
Qed.

(** [find] answers the position of the first occurrence at or after
    [start]. *)
Lemma bytes_find_first (b : byte) (prefix after : bytes) (start : Z) :
  0 <= start <= len prefix ->
  Forall (fun x => x <> b) (skipn (Z.to_nat start) prefix) ->
  bytes_find b (prefix ++ b :: after) start = len prefix.
Proof.
  intros Hstart Hnone. unfold bytes_find, slice_bound. cbv zeta.
  assert ((start <? 0) = false) as -> by (apply Z.ltb_ge; lia).
  replace (Z.to_nat (Z.min (Z.max 0 start) (len (prefix ++ b :: after))))
    with (Z.to_nat start) by (rewrite len_app; pose proof (len_nonneg (b :: after)); lia).
  rewrite skipn_app.
  replace (Z.to_nat start - List.length prefix)%nat with 0%nat
    by (unfold len in Hstart; lia).
  cbn [skipn]. rewrite find_from_first by assumption.
  unfold len in *. rewrite length_skipn. lia.
Qed.

Lemma skipn_after_prefix {A} (prefix l : list A) (k : nat) :
  skipn (List.length prefix + k) (prefix ++ l) = skipn k l.
Proof.
  rewrite skipn_app.
  replace (List.length prefix + k - List.length prefix)%nat with k by lia.
  rewrite skipn_all2 by lia. reflexivity.
Qed.

Lemma extract_image_descriptor_at_separator (prefix after : bytes)
  (sd : screen_descriptor) :
  extract_screen_descriptor (prefix ++ image_separator :: after) = Ok sd ->
  13 + table_size_of sd <= len prefix ->
  Forall (fun x => x <> image_separator)
         (skipn (Z.to_nat (13 + table_size_of sd)) prefix) ->
  extract_image_descriptor (prefix ++ image_separator :: after)
  = image_descriptor_at (prefix ++ image_separator :: after) (len prefix).
Proof.
  intros Hsd Hstart Hnone. unfold extract_image_descriptor.
  rewrite Hsd. cbn [bind]. pose proof (table_size_nonneg sd).
  rewrite bytes_find_first by (assumption || lia). reflexivity.
Qed.

Lemma descriptor_packed_byte (prefix : bytes) (sep b1 b2 b3 b4 b5 b6 b7 b8 packed : byte)
  (rest : bytes) :
  py_index (prefix ++ sep :: [b1; b2; b3; b4; b5; b6; b7; b8; packed] ++ rest)
           (len prefix + 9) = Ok packed.
Proof.
  pose proof (len_nonneg prefix). rewrite py_index_nonneg by lia.
  replace (Z.to_nat (len prefix + 9)) with (List.length prefix + 9)%nat
    by (unfold len; lia).
  rewrite nth_error_app2 by lia.
  replace (List.length prefix + 9 - List.length prefix)%nat with 9%nat by lia.
  reflexivity.
Qed.

(** The descriptor is read from the nine bytes that follow the first
    [0x2C] found at or after the end of the global colour table, bytes
    of that value inside the table or before it being passed over:
    four little-endian 16-bit numbers, then the packed byte. *)
Theorem extract_image_descriptor_layout
  (prefix : bytes) (l0 l1 t0 t1 w0 w1 h0 h1 packed : byte) (rest : bytes)
  (sd : screen_descriptor) :
  extract_screen_descriptor
    (prefix ++ image_separator :: [l0; l1; t0; t1; w0; w1; h0; h1; packed] ++ rest)
  = Ok sd ->
  13 + table_size_of sd <= len prefix ->
  Forall (fun x => x <> image_separator)
         (skipn (Z.to_nat (13 + table_size_of sd)) prefix) ->
  extract_image_descriptor
    (prefix ++ image_separator :: [l0; l1; t0; t1; w0; w1; h0; h1; packed] ++ rest)
  = (fields <- packed_image_fields packed ;;
     Ok {| id_left := byte_val l0 + 256 * byte_val l1;
           id_top := byte_val t0 + 256 * byte_val t1;
           id_width := byte_val w0 + 256 * byte_val w1;
           id_height := byte_val h0 + 256 * byte_val h1;
           id_lc_fl := fst (fst (fst (fst fields)));
           id_itl_fl := snd (fst (fst (fst fields)));
           id_sort_fl := snd (fst (fst fields));
           id_res := snd (fst fields);
           id_lc_size := snd fields |}).
Proof.
  intros Hsd Hstart Hnone.
  rewrite (extract_image_descriptor_at_separator _ _ _ Hsd Hstart Hnone).
  rewrite image_descriptor_at_packed, descriptor_packed_byte.
  pose proof (len_nonneg prefix) as Hp.
  rewrite !py_slice_nonneg by lia.
  replace (Z.to_nat (len prefix + 1)) with (List.length prefix + 1)%nat
    by (unfold len; lia).
  replace (Z.to_nat (len prefix + 3)) with (List.length prefix + 3)%nat
    by (unfold len; lia).
  replace (Z.to_nat (len prefix + 5)) with (List.length prefix + 5)%nat
    by (unfold len; lia).
  replace (Z.to_nat (len prefix + 7)) with (List.length prefix + 7)%nat
    by (unfold len; lia).
  rewrite !skipn_after_prefix.
  replace (Z.to_nat (len prefix + 3 - (len prefix + 1))) with 2%nat by lia.
  replace (Z.to_nat (len prefix + 5 - (len prefix + 3))) with 2%nat by lia.
  replace (Z.to_nat (len prefix + 7 - (len prefix + 5))) with 2%nat by lia.
  replace (Z.to_nat (len prefix + 9 - (len prefix + 7))) with 2%nat by lia.
  cbn [app skipn firstn bind int_from_bytes_little fold_right].
  destruct (packed_image_fields packed) as [fields|e]; [|reflexivity].
  cbn [bind]. f_equal. f_equal; lia.
Qed.

Lemma extract_image_descriptor_layout_witness :
  extract_image_descriptor
    (firstn 25 minimal_gif
     ++ image_separator :: [x00; x00; x00; x00; x02; x00; x02; x00; x00]
     ++ skipn 35 minimal_gif)
  = (fields <- packed_image_fields x00 ;;
     Ok {| id_left := byte_val x00 + 256 * byte_val x00;
           id_top := byte_val x00 + 256 * byte_val x00;
           id_width := byte_val x02 + 256 * byte_val x00;
           id_height := byte_val x02 + 256 * byte_val x00;
           id_lc_fl := fst (fst (fst (fst fields)));
           id_itl_fl := snd (fst (fst (fst fields)));
           id_sort_fl := snd (fst (fst fields));
           id_res := snd (fst fields);
           id_lc_size := snd fields |}).
Proof.
  apply (extract_image_descriptor_layout (firstn 25 minimal_gif)
           x00 x00 x00 x00 x02 x00 x02 x00 x00 (skipn 35 minimal_gif)
    {| sd_width := 2; sd_height := 2; sd_gc_fl := 1; sd_cr := 1;
       sd_sort_fl := 0; sd_gc_size := 1; sd_bcolour_i := 0; sd_px_ratio := 0 |}).
  - reflexivity.
  - cbv. discriminate.
  - constructor.
Defined.

(** Whatever [extract_image_descriptor] returns, either its five packed
    fields are all 0 or the local-colour flag is 1: the flag is the
    first digit of [bin], which is never 0 but for the byte 0.  The
    field [res] is read from the digits 2-3, so its upper bit is the
    sort flag again, and all fields stay within their widths. *)
Theorem extract_image_descriptor_packed_fields (data : bytes) (d : image_descriptor) :
  extract_image_descriptor data = Ok d ->
  (id_lc_fl d = 0 /\ id_itl_fl d = 0 /\ id_sort_fl d = 0 /\ id_res d = 0 /\
   id_lc_size d = 0)
  \/
  (id_lc_fl d = 1 /\ 0 <= id_itl_fl d <= 1 /\ 0 <= id_sort_fl d <= 1 /\
   0 <= id_res d <= 3 /\ id_res d / 2 = id_sort_fl d /\
   0 <= id_lc_size d <= 7).
Proof.
  unfold extract_image_descriptor. intros Hd.
  destruct (extract_screen_descriptor data) as [sd|]; [|discriminate].
  cbn [bind] in Hd. rewrite image_descriptor_at_packed in Hd.
  destruct (py_index data _) as [b9|]; [|discriminate]. cbn [bind] in Hd.
  destruct (packed_image_fields_cases b9)
    as [(_ & e & He)|[(_ & He)|(_ & itl & sort & res & size & He & Hitl & Hsort
                               & Hsize & Hres & Hhigh & _)]];
    rewrite He in Hd; cbn [bind] in Hd; [discriminate| |];
    injection Hd as <-; cbn [id_lc_fl id_itl_fl id_sort_fl id_res id_lc_size fst snd].
  - left. repeat split.
  - right. repeat split; assumption || lia.
Qed.

Lemma extract_image_descriptor_packed_fields_witness :
  extract_image_descriptor imageless_gif
  = Ok {| id_left := 18759; id_top := 14406; id_width := 24889;
          id_height := 16; id_lc_fl := 1; id_itl_fl := 0; id_sort_fl := 0;
          id_res := 0; id_lc_size := 0 |} /\
  ((1 = 0 /\ 0 = 0 /\ 0 = 0 /\ 0 = 0 /\ 0 = 0) \/
   (1 = 1 /\ 0 <= 0 <= 1 /\ 0 <= 0 <= 1 /\ 0 <= 0 <= 3 /\ 0 / 2 = 0 /\
    0 <= 0 <= 7)).
Proof.
  split; [reflexivity|].
  apply (extract_image_descriptor_packed_fields imageless_gif
    {| id_left := 18759; id_top := 14406; id_width := 24889;
       id_height := 16; id_lc_fl := 1; id_itl_fl := 0; id_sort_fl := 0;
       id_res := 0; id_lc_size := 0 |}).
  reflexivity.
Defined.

(** With the top bit of the packed byte set, the digits are eight and
    the fields are these bits of the byte: the flag bit 7, interlace
    bit 6, sort bit 5, [res] bits 5-4 and [lc_size] bits 3-1; bit 0 is
    never read. *)
Theorem extract_image_descriptor_bit_positions
  (prefix : bytes) (l0 l1 t0 t1 w0 w1 h0 h1 packed : byte) (rest : bytes)
  (sd : screen_descriptor) :
  extract_screen_descriptor
    (prefix ++ image_separator :: [l0; l1; t0; t1; w0; w1; h0; h1; packed] ++ rest)
  = Ok sd ->
  13 + table_size_of sd <= len prefix ->
  Forall (fun x => x <> image_separator)
         (skipn (Z.to_nat (13 + table_size_of sd)) prefix) ->
  128 <= byte_val packed ->
  exists d,
    extract_image_descriptor
      (prefix ++ image_separator :: [l0; l1; t0; t1; w0; w1; h0; h1; packed] ++ rest)
    = Ok d /\
    id_lc_fl d = 1 /\
    id_itl_fl d = Z.land (Z.shiftr (byte_val packed) 6) 1 /\
    id_sort_fl d = Z.land (Z.shiftr (byte_val packed) 5) 1 /\
    id_res d = Z.land (Z.shiftr (byte_val packed) 4) 3 /\
    id_lc_size d = Z.land (Z.shiftr (byte_val packed) 1) 7.
Proof.
  intros Hsd Hstart Hnone Htop.
  rewrite (extract_image_descriptor_at_separator _ _ _ Hsd Hstart Hnone).
  rewrite image_descriptor_at_packed, descriptor_packed_byte. cbn [bind].
  destruct (packed_image_fields_cases packed)
    as [(Hlow & _)|[(Hzero & _)|(_ & itl & sort & res & size & -> & _ & _ & _ & _
                               & _ & Hbits)]]; [lia | lia |].
  destruct (Hbits Htop) as (-> & -> & -> & ->).
  cbn [bind]. eexists. split; [reflexivity|]. cbn. auto.
Qed.

Lemma extract_image_descriptor_bit_positions_witness :
  exists d,
    extract_image_descriptor
      (firstn 25 minimal_gif
       ++ image_separator :: [x00; x00; x00; x00; x02; x00; x02; x00; xc3]
       ++ skipn 35 minimal_gif) = Ok d /\
    id_lc_fl d = 1 /\
    id_itl_fl d = Z.land (Z.shiftr (byte_val xc3) 6) 1 /\
    id_sort_fl d = Z.land (Z.shiftr (byte_val xc3) 5) 1 /\
    id_res d = Z.land (Z.shiftr (byte_val xc3) 4) 3 /\
    id_lc_size d = Z.land (Z.shiftr (byte_val xc3) 1) 7.
Proof.
  apply (extract_image_descriptor_bit_positions (firstn 25 minimal_gif)
           x00 x00 x00 x00 x02 x00 x02 x00 xc3 (skipn 35 minimal_gif)
    {| sd_width := 2; sd_height := 2; sd_gc_fl := 1; sd_cr := 1;
       sd_sort_fl := 0; sd_gc_size := 1; sd_bcolour_i := 0; sd_px_ratio := 0 |}).
  - reflexivity.
  - cbv. discriminate.
  - cbv. constructor.
  - cbv. discriminate.
Defined.

(** ** Bits, codes and sub-blocks *)

Lemma byte_bits_length (b : byte) : len (byte_bits b) = 8.
Proof. destruct b; reflexivity. Qed.

(** A byte of a sub-block becomes exactly eight characters, its bits
    from the least significant one up, and reading them back in
    reverse in base 2, as the decoder reads a code, gives the byte. *)
Theorem byte_bits_round_trip (b : byte) :
  len (byte_bits b) = 8 /\
  byte_bits b = code_bits 8 (byte_val b) /\
  int_base2 (rev (byte_bits b)) = Ok (byte_val b).
Proof. destruct b; repeat split; reflexivity. Qed.

Lemma int2_acc_snoc (s : str) (c : ascii) : forall acc,
  int2_acc acc (s ++ [c]) =
  (v <- int2_acc acc s ;;
   match digit_of c with
   | Some d => if d <? 2 then Ok (2 * v + d) else Raise ValueError
   | None => Raise ValueError
   end).
Proof.
  induction s as [|x s IH]; intros acc; cbn [app int2_acc bind].
  - destruct (digit_of c) as [d|]; [|reflexivity].
    destruct (d <? 2); reflexivity.
  - destruct (digit_of x) as [d|]; [|reflexivity].
    destruct (d <? 2); [apply IH | reflexivity].
Qed.

Lemma code_bits_length (w : nat) : forall c, List.length (code_bits w c) = w.
Proof.
  induction w as [|w IH]; intros c; cbn [code_bits List.length];
    [reflexivity | rewrite IH; reflexivity].
Qed.

Lemma int2_acc_code_bits (w : nat) : forall c,
  0 <= c < 2 ^ Z.of_nat w ->
  int2_acc 0 (rev (code_bits w c)) = Ok c.
Proof.
  induction w as [|w IH]; intros c Hc.
  - cbn in *. f_equal. lia.
  - cbn [code_bits rev]. rewrite int2_acc_snoc, IH.
    + cbn [bind]. pose proof (Z.div_mod c 2 ltac:(lia)) as Hdm.
      rewrite Zmod_odd in Hdm.
      destruct (Z.odd c);
        [change (digit_of "1") with (Some 1) | change (digit_of "0") with (Some 0)];
        cbv beta iota; [change (1 <? 2) with true | change (0 <? 2) with true];
        cbv iota; f_equal; lia.
    + rewrite Nat2Z.inj_succ, Z.pow_succ_r in Hc by lia.
      split; [apply Z.div_pos; lia | apply Z.div_lt_upper_bound; lia].
Qed.

Lemma py_slice_middle {A} (before mid after : list A) (stop : Z) :
  len before + len mid <= stop ->
  (after = [] \/ stop = len before + len mid) ->
  py_slice (before ++ mid ++ after) (len before) stop = mid.
Proof.
  intros Hstop Hafter. pose proof (len_nonneg before). pose proof (len_nonneg mid).
  rewrite py_slice_nonneg by lia.
  replace (Z.to_nat (len before)) with (List.length before + 0)%nat
    by (unfold len; lia).
  rewrite skipn_after_prefix. cbn [skipn].
  destruct Hafter as [->| ->].
  - rewrite app_nil_r. apply firstn_all2. unfold len in *. lia.
  - replace (Z.to_nat (len before + len mid - len before)) with (List.length mid)
      by (unfold len; lia).
    rewrite firstn_app, Nat.sub_diag, firstn_O, app_nil_r.
    apply firstn_all.
Qed.


(** A code written as [w] bits, least significant first, anywhere in
    the stream is read back by [read_code] when the cursor stands on it
    and the code width is [w]; at the very end of the stream a code
    with fewer bits than the width is read all the same, its missing
    high bits taken as zero. *)
Theorem read_code_round_trip (before after : str) (w : nat) (c : Z) (s : lzw_state) :
  (0 < w)%nat ->
  0 <= c < 2 ^ Z.of_nat w ->
  start_b s = len before ->
  (code_size s = Z.of_nat w \/ (after = [] /\ Z.of_nat w <= code_size s)) ->
  read_code (before ++ code_bits w c ++ after) s = Ok c.
Proof.
  intros Hw Hc Hstart Hsize. unfold read_code. rewrite Hstart.
  assert (Hlen : len (code_bits w c) = Z.of_nat w)
    by (unfold len; rewrite code_bits_length; reflexivity).
  rewrite py_slice_middle.
  - destruct w as [|w]; [lia|].
    unfold int_base2.
    destruct (rev (code_bits (S w) c)) as [|x r] eqn:Hrev.
    + apply (f_equal (@List.length ascii)) in Hrev.
      rewrite length_rev, code_bits_length in Hrev. discriminate.
    + rewrite <- Hrev. apply int2_acc_code_bits. exact Hc.
  - destruct Hsize as [->|[_ Hle]]; lia.
  - destruct Hsize as [->|[-> _]]; [right; lia | left; reflexivity].
Qed.

Lemma read_code_round_trip_witness :
  read_code (code_bits 3 4 ++ code_bits 3 1 ++ code_bits 4 5)
            {| start_b := 3; count := 1; code_size := 3;
               code_table := None; first := None; previous_code := None;
               image_data := [] |}
  = Ok 1.
Proof.
  apply (read_code_round_trip (code_bits 3 4) (code_bits 4 5) 3 1).
  - lia.
  - cbv. split; [discriminate | reflexivity].
  - reflexivity.
  - left. reflexivity.
Defined.

Lemma py_index_at_prefix {A} (before : list A) (x : A) (after : list A) :
  py_index (before ++ x :: after) (len before) = Ok x.
Proof.
  pose proof (len_nonneg before). rewrite py_index_nonneg by assumption.
  replace (Z.to_nat (len before)) with (List.length before) by (unfold len; lia).
  rewrite nth_error_app2, Nat.sub_diag by lia. reflexivity.
Qed.

Lemma frame_head (blocks : list (byte * bytes)) :
  exists L tail, frame blocks = L :: tail.
Proof. destruct blocks as [|[L payload] blocks]; cbn; eauto. Qed.

(** The sub-block loop run on a chain of well-formed sub-blocks returns
    one bit string per block, the bits of its payload bytes in order,
    and stops at the zero-length block, whatever follows it. *)
Lemma sub_block_loop_frame (blocks : list (byte * bytes)) :
  forall before after acc,
    well_framed blocks ->
    exists L,
      py_index (before ++ frame blocks ++ after) (len before) = Ok L /\
      sub_block_loop (before ++ frame blocks ++ after) (len before) L acc
      = Ok (acc ++ map (fun block => concat (map byte_bits (snd block))) blocks).
Proof.
  induction blocks as [|[L payload] blocks IH]; intros before after acc Hwf.
  - exists x00. cbn [frame app]. rewrite py_index_at_prefix.
    split; [reflexivity|]. rewrite sub_block_loop_body. cbn [map].
    rewrite app_nil_r. reflexivity.
  - inversion Hwf as [|? ? [Hnz Hlen] Hrest]; subst. cbn [fst snd] in Hnz, Hlen.
    exists L. cbn [frame app]. rewrite py_index_at_prefix.
    split; [reflexivity|]. rewrite sub_block_loop_body.
    destruct (Z.eqb_spec (byte_val L) 0); [contradiction|].
    destruct (IH (before ++ L :: payload) after
                 (acc ++ [concat (map byte_bits payload)]) Hrest)
      as (L' & Hnext & Hloop).
    assert (Hshape : before ++ L :: (payload ++ frame blocks) ++ after
                     = (before ++ L :: payload) ++ frame blocks ++ after)
      by (rewrite <- !app_assoc; reflexivity).
    assert (Hpos : len before + (byte_val L + 1) = len (before ++ L :: payload)).
    { rewrite len_app. unfold len in *. cbn [List.length]. lia. }
    rewrite Hpos, Hshape, Hnext, <- Hpos, <- Hshape.
    assert (Hslice : py_slice (before ++ L :: (payload ++ frame blocks) ++ after)
                              (len before + 1) (len before + byte_val L + 1)
                     = payload).
    { replace (before ++ L :: (payload ++ frame blocks) ++ after)
        with ((before ++ [L]) ++ payload ++ (frame blocks ++ after))
        by (rewrite <- !app_assoc; reflexivity).
      replace (len before + 1) with (len (before ++ [L]))
        by (rewrite len_app; reflexivity).
      apply py_slice_middle; rewrite len_app; unfold len in *; cbn [List.length];
        [lia | right; lia]. }
    rewrite Hslice, Hpos, Hshape, Hloop. cbn [map snd].
    rewrite <- app_assoc. reflexivity.
Qed.

Lemma concat_block_bits (blocks : list (byte * bytes)) :
  concat (map (fun block => concat (map byte_bits (snd block))) blocks)
  = concat (map byte_bits (concat (map snd blocks))).
Proof.
  induction blocks as [|[L payload] blocks IH]; [reflexivity|].
  cbn [map concat snd]. rewrite map_app, concat_app, IH. reflexivity.
Qed.

Lemma len_concat_byte_bits (payload : bytes) :
  len (concat (map byte_bits payload)) = 8 * len payload.
Proof.
  induction payload as [|b payload IH]; [reflexivity|].
  cbn [map concat]. rewrite len_app, IH.
  rewrite byte_bits_length. unfold len. cbn [List.length]. lia.
Qed.

(** Sub-block framing is undone: for a file whose image descriptor is
    followed by the minimum code size and a chain of well-formed
    sub-blocks closed by a zero-length block, [extract_image] decodes
    the bit stream made of the payload bytes of all the blocks, in
    order, eight bits per byte, least significant bit first; the length
    bytes, the terminator and whatever follows it do not enter it. *)
Theorem image_data_stream_framed
  (prefix descriptor : bytes) (mcs : byte) (blocks : list (byte * bytes))
  (rest : bytes) (sd : screen_descriptor) :
  extract_screen_descriptor
    (prefix ++ image_separator :: descriptor ++ mcs :: frame blocks ++ rest)
  = Ok sd ->
  13 + table_size_of sd <= len prefix ->
  Forall (fun x => x <> image_separator)
         (skipn (Z.to_nat (13 + table_size_of sd)) prefix) ->
  len descriptor = 9 ->
  well_framed blocks ->
  image_data_stream
    (prefix ++ image_separator :: descriptor ++ mcs :: frame blocks ++ rest)
  = Ok (byte_val mcs, concat (map byte_bits (concat (map snd blocks)))) /\
  len (concat (map byte_bits (concat (map snd blocks))))
  = 8 * len (concat (map snd blocks)).
Proof.
  intros Hsd Hstart Hnone Hdesc Hwf. split; [|apply len_concat_byte_bits].
  unfold image_data_stream. rewrite Hsd. cbn [bind].
  pose proof (table_size_nonneg sd). pose proof (len_nonneg prefix).
  rewrite bytes_find_first by (assumption || lia).
  set (data := prefix ++ image_separator :: descriptor ++ mcs :: frame blocks ++ rest).
  assert (Himage : py_slice data (len prefix + 10) (len data)
                   = mcs :: frame blocks ++ rest).
  { unfold data.
    replace (prefix ++ image_separator :: descriptor ++ mcs :: frame blocks ++ rest)
      with ((prefix ++ image_separator :: descriptor)
            ++ (mcs :: frame blocks ++ rest) ++ [])
      by (rewrite app_nil_r, <- app_assoc; reflexivity).
    replace (len prefix + 10) with (len (prefix ++ image_separator :: descriptor))
      by (rewrite len_app; unfold len in *; cbn [List.length]; lia).
    apply py_slice_middle; [|left; reflexivity].
    rewrite !len_app. pose proof (len_nonneg (@nil byte)). cbn in *. lia. }
  rewrite Himage.
  change (py_index (mcs :: frame blocks ++ rest) 0) with (Ok (A := byte) mcs).
  cbn [bind].
  destruct (sub_block_loop_frame blocks [mcs] rest [] Hwf) as (L & HL & Hloop).
  change (len [mcs]) with 1 in HL, Hloop. cbn [app] in HL, Hloop.
  rewrite HL. cbn [bind]. rewrite Hloop. cbn [bind app].
  rewrite concat_block_bits. reflexivity.
Qed.

Lemma image_data_stream_framed_witness :
  image_data_stream
    (firstn 25 minimal_gif
     ++ image_separator :: [x00; x00; x00; x00; x02; x00; x02; x00; x00]
     ++ x02 :: frame [(x02, [x44; x34]); (x01, [x05])] ++ [x3b])
  = Ok (byte_val x02,
        concat (map byte_bits
                    (concat (map snd [(x02, [x44; x34]); (x01, [x05])])))).
Proof.
  refine (proj1 (image_data_stream_framed (firstn 25 minimal_gif)
           [x00; x00; x00; x00; x02; x00; x02; x00; x00] x02
           [(x02, [x44; x34]); (x01, [x05])] [x3b]
    {| sd_width := 2; sd_height := 2; sd_gc_fl := 1; sd_cr := 1;
       sd_sort_fl := 0; sd_gc_size := 1; sd_bcolour_i := 0; sd_px_ratio := 0 |}
    _ _ _ _ _)).
  - reflexivity.
  - cbv. discriminate.
  - constructor.
  - reflexivity.
  - repeat constructor; cbv; discriminate.
Defined.

(** ** More on the decoding loop *)

Lemma py_index_raises {A} (l : list A) (i : Z) (e : exn) :
  py_index l i = Raise e -> e = IndexError.
Proof.
  unfold py_index. destruct (_ || _); [congruence|].
  destruct (nth_error l _); congruence.
Qed.

Lemma py_first_raises (v : pyval) (e : exn) :
  py_first v = Raise e -> e = IndexError \/ e = TypeError.
Proof.
  destruct v as [z|s|l]; cbn [py_first].
  - intros [= <-]. auto.
  - destruct (py_index s 0) eqn:Hs; cbn [bind]; [discriminate|].
    intros [= <-]. left. eapply py_index_raises; eassumption.
  - intros H. left. eapply py_index_raises; eassumption.
Qed.

Lemma py_add_list_raises (v b : pyval) (e : exn) :
  py_add_list v b = Raise e -> e = TypeError.
Proof. destruct v; cbn; congruence. Qed.

Lemma py_extend_raises (acc : list pyval) (v : pyval) (e : exn) :
  py_extend acc v = Raise e -> e = TypeError.
Proof. destruct v; cbn; congruence. Qed.

Lemma int2_acc_raises (s : str) : forall acc e,
  int2_acc acc s = Raise e -> e = ValueError.
Proof.
  induction s as [|c s IH]; intros acc e; cbn [int2_acc]; [discriminate|].
  destruct (digit_of c) as [d|]; [|congruence].
  destruct (d <? 2); [apply IH | congruence].
Qed.

Lemma read_code_raises (data_stream : str) (s : lzw_state) (e : exn) :
  read_code data_stream s = Raise e -> e = ValueError.
Proof.
  unfold read_code, int_base2. destruct (rev _); [congruence|].
  apply int2_acc_raises.
Qed.

Section DecoderMore.

Variable gc_map : list pyval.
Variable min_code_size : Z.
Variable data_stream : str.

(** A code below the table length that is neither sentinel and names a
    colour sequence of the code table.  On the first code after a Clear
    the iteration emits that sequence and leaves the table as it is.
    On a later code the outcome depends on the previous code: if it
    names a colour sequence of the table, the iteration emits the entry
    and the table gains the previous sequence followed by the first
    colour of the entry just emitted; if it is not below the table
    length, as happens after a code beyond the table has been accepted,
    the iteration raises [IndexError]. *)
Theorem known_code_emits_entry s c table l :
  read_code data_stream s = Ok c ->
  c <> cc_index gc_map ->
  c <> cc_index gc_map + 1 ->
  code_table s = Some table ->
  c < len table ->
  py_index table c = Ok (PList l) ->
  (first s = Some true ->
   exists s',
     lzw_step gc_map min_code_size data_stream s = Ok (Continue s') /\
     image_data s' = image_data s ++ l /\
     code_table s' = Some table /\
     first s' = Some false /\
     previous_code s' = Some c) /\
  (forall previous entry x l',
     first s = Some false ->
     previous_code s = Some previous ->
     py_index table previous = Ok (PList entry) ->
     l = x :: l' ->
     exists s',
       lzw_step gc_map min_code_size data_stream s = Ok (Continue s') /\
       image_data s' = image_data s ++ l /\
       code_table s' = Some (table ++ [PList (entry ++ [x])]) /\
       first s' = Some false /\
       previous_code s' = Some c) /\
  (forall previous x l',
     first s = Some false ->
     previous_code s = Some previous ->
     len table <= previous ->
     l = x :: l' ->
     lzw_step gc_map min_code_size data_stream s = Raise IndexError).
Proof.
  intros Hread Hcc Heoi Htable Hlt Hentry.
  assert (Hstep : lzw_step gc_map min_code_size data_stream s
                  = (out <- (image_data' <- Ok (image_data s ++ l) ;;
                             is_first <- load (first s) ;;
                             if is_first : bool then
                               Ok (Continue
                                 {| start_b := start_b s + code_size s;
                                    count := count s; code_size := code_size s;
                                    code_table := Some table; first := Some false;
                                    previous_code := previous_code s;
                                    image_data := image_data' |})
                             else
                               b <- py_first (PList l) ;;
                               previous <- load (previous_code s) ;;
                               entry <- py_index table previous ;;
                               new <- py_add_list entry b ;;
                               Ok (Continue
                                 {| start_b := start_b s + code_size s;
                                    count := count s; code_size := code_size s;
                                    code_table := Some (table ++ [new]);
                                    first := Some false;
                                    previous_code := previous_code s;
                                    image_data := image_data' |})) ;;
                     match out with
                     | Break => Ok Break
                     | Continue s' => Ok (Continue (lzw_bookkeeping s' c))
                     end)).
  { unfold lzw_step. rewrite Hread. cbn [bind]. unfold lzw_branch.
    destruct (Z.eqb_spec c (cc_index gc_map)); [contradiction|].
    destruct (Z.eqb_spec c (cc_index gc_map + 1)); [contradiction|].
    cbn [advance code_table previous_code image_data first start_b count code_size].
    rewrite Htable. cbn [load bind].
    destruct (Z.ltb_spec c (len table)); [|lia].
    rewrite Hentry. reflexivity. }
  split; [|split].
  - intros Hfirst. rewrite Hstep, Hfirst. cbn [bind load].
    eexists. split; [reflexivity|].
    match goal with
    | |- context [lzw_bookkeeping ?s1 ?c] =>
        destruct (lzw_bookkeeping_rest s1 c) as (_ & -> & -> & -> & ->)
    end.
    cbn. auto.
  - intros previous entry x l' Hfirst Hprev Hpentry ->.
    rewrite Hstep, Hfirst, Hprev. cbn [bind load py_first].
    replace (py_index (x :: l') 0) with (Ok x) by reflexivity.
    cbn [bind]. rewrite Hpentry. cbn [bind py_add_list].
    eexists. split; [reflexivity|].
    match goal with
    | |- context [lzw_bookkeeping ?s1 ?c] =>
        destruct (lzw_bookkeeping_rest s1 c) as (_ & -> & -> & -> & ->)
    end.
    cbn. auto.
  - intros previous x l' Hfirst Hprev Hpast ->.
    rewrite Hstep, Hfirst, Hprev. cbn [bind load py_first].
    replace (py_index (x :: l') 0) with (Ok x) by reflexivity.
    cbn [bind]. rewrite py_index_out_of_range by assumption. reflexivity.
Qed.

(** The output is only ever appended to and the cursor only moves
    forward by the width in force: after an iteration that continues,
    the cursor has advanced by the code size the code was read with and
    the output is the old output followed by what was emitted. *)
Lemma lzw_step_appends s s' :
  lzw_step gc_map min_code_size data_stream s = Ok (Continue s') ->
  start_b s' = start_b s + code_size s /\
  exists emitted, image_data s' = image_data s ++ emitted.
Proof.
  intros Hstep.
  apply lzw_step_continue in Hstep as (c & s1 & _ & Hb & ->).
  destruct (lzw_bookkeeping_rest s1 c) as (-> & _ & _ & _ & ->).
  split; [apply (lzw_branch_start_b _ _ _ _ _ Hb)|].
  unfold lzw_branch in Hb.
  destruct (c =? cc_index gc_map).
  { injection Hb as <-. exists []. cbn. symmetry. apply app_nil_r. }
  destruct (c =? cc_index gc_map + 1); [discriminate|].
  assert (Hext : forall acc v acc', py_extend acc v = Ok acc' ->
                                    exists emitted, acc' = acc ++ emitted).
  { intros acc [z|str0|l0] acc'; cbn; intros [= <-]; eauto. }
  bind_cases Hb; injection Hb as <-; cbn [image_data advance];
    eapply Hext; eassumption.
Qed.

(** Whatever the decoder returns extends the output of every state it
    went through: no colour, once emitted, is dropped or changed. *)
Theorem decoder_output_grows (fuel : nat) : forall s out,
  lzw_loop gc_map min_code_size data_stream fuel s = Some (Ok out) ->
  exists emitted, out = image_data s ++ emitted.
Proof.
  induction fuel as [|fuel IH]; intros s out H; [discriminate|].
  cbn [lzw_loop] in H.
  destruct (lzw_step gc_map min_code_size data_stream s) as [[s'|]|] eqn:Hstep.
  - apply IH in H as [later ->].
    apply lzw_step_appends in Hstep as (_ & emitted & ->).
    exists (emitted ++ later). symmetry. apply app_assoc.
  - injection H as <-. exists []. symmetry. apply app_nil_r.
  - discriminate.
Qed.

Lemma lzw_step_clear_seen s s' :
  code_table s = None \/ clear_seen s ->
  lzw_step gc_map min_code_size data_stream s = Ok (Continue s') ->
  clear_seen s'.
Proof.
  intros Hs Hstep.
  apply lzw_step_continue in Hstep as (c & s1 & _ & Hb & ->).
  unfold clear_seen.
  destruct (lzw_bookkeeping_rest s1 c) as (_ & -> & -> & -> & _).
  unfold lzw_branch in Hb.
  destruct (c =? cc_index gc_map).
  { injection Hb as <-. cbn. repeat split; discriminate. }
  destruct (c =? cc_index gc_map + 1); [discriminate|].
  cbn [advance code_table first previous_code image_data] in Hb.
  destruct Hs as [Hnone|(Ht & Hf & Hp)].
  { rewrite Hnone in Hb. discriminate. }
  bind_cases Hb; injection Hb as <-; cbn; repeat split;
    solve [discriminate | assumption].
Qed.

Lemma lzw_step_no_NameError s :
  clear_seen s ->
  lzw_step gc_map min_code_size data_stream s <> Raise NameError.
Proof.
  intros (Ht & Hf & Hp) Hstep. unfold lzw_step in Hstep.
  destruct (read_code data_stream s) as [c|e] eqn:Hread; cbn [bind] in Hstep.
  2:{ injection Hstep as ->. apply read_code_raises in Hread. discriminate. }
  destruct (lzw_branch gc_map min_code_size (advance s) c) as [[s1|]|e] eqn:Hb;
    cbn [bind] in Hstep; try discriminate.
  injection Hstep as ->. unfold lzw_branch in Hb.
  destruct (c =? cc_index gc_map); [discriminate|].
  destruct (c =? cc_index gc_map + 1); [discriminate|].
  cbn [advance code_table first previous_code image_data] in Hb.
  destruct (code_table s) as [table|]; [|contradiction].
  destruct (first s) as [is_first|]; [|contradiction].
  destruct (previous_code s) as [previous|]; [|contradiction].
  cbn [load bind] in Hb.
  repeat match type of Hb with
         | (if ?c then _ else _) = _ => destruct c
         | bind ?m _ = _ =>
             let E := fresh "E" in
             destruct m eqn:E; cbn [bind] in Hb;
             [|injection Hb as ->;
               first [ apply py_index_raises in E
                     | apply py_extend_raises in E
                     | apply py_add_list_raises in E
                     | apply py_first_raises in E as [E|E] ];
               discriminate]
         end; discriminate.
Qed.

Lemma lzw_loop_no_NameError (fuel : nat) : forall s,
  clear_seen s ->
  lzw_loop gc_map min_code_size data_stream fuel s <> Some (Raise NameError).
Proof.
  induction fuel as [|fuel IH]; intros s Hseen; [discriminate|].
  cbn [lzw_loop].
  destruct (lzw_step gc_map min_code_size data_stream s) as [[s'|]|e] eqn:Hstep.
  - apply IH. apply (lzw_step_clear_seen s); [right; exact Hseen | exact Hstep].
  - discriminate.
  - intros [= ->]. eapply lzw_step_no_NameError; eassumption.
Qed.

(** The decoder ends in [NameError] exactly when the first code of the
    stream is an ordinary code: once a Clear code has been read the
    code table, the flag and the previous code stay bound for the rest
    of the decode. *)
Theorem NameError_iff_unprimed :
  lzw_decode gc_map min_code_size data_stream = Some (Raise NameError) <->
  exists c, read_code data_stream (init_state min_code_size) = Ok c /\
            c <> cc_index gc_map /\ c <> cc_index gc_map + 1.
Proof.
  unfold lzw_decode. cbn [lzw_loop].
  destruct (lzw_step gc_map min_code_size data_stream (init_state min_code_size))
    as [[s'|]|e] eqn:Hstep.
  - split.
    + intros H. exfalso. revert H. apply lzw_loop_no_NameError.
      apply (lzw_step_clear_seen (init_state min_code_size));
        [left; reflexivity | exact Hstep].
    + intros (c & Hread & Hcc & Heoi). exfalso.
      unfold lzw_step in Hstep. rewrite Hread in Hstep. cbn [bind] in Hstep.
      unfold lzw_branch in Hstep.
      destruct (Z.eqb_spec c (cc_index gc_map)); [contradiction|].
      destruct (Z.eqb_spec c (cc_index gc_map + 1)); [contradiction|].
      discriminate.
  - split; [discriminate|].
    intros (c & Hread & Hcc & Heoi). exfalso.
    unfold lzw_step in Hstep. rewrite Hread in Hstep. cbn [bind] in Hstep.
    unfold lzw_branch in Hstep.
    destruct (Z.eqb_spec c (cc_index gc_map)); [contradiction|].
    destruct (Z.eqb_spec c (cc_index gc_map + 1)); [contradiction|].
    discriminate.
  - unfold lzw_step in Hstep.
    destruct (read_code data_stream (init_state min_code_size)) as [c|e'] eqn:Hread;
      cbn [bind] in Hstep.
    + unfold lzw_branch in Hstep.
      destruct (Z.eqb_spec c (cc_index gc_map)); [discriminate|].
      destruct (Z.eqb_spec c (cc_index gc_map + 1)); [discriminate|].
      cbn in Hstep. injection Hstep as <-.
      split; [|reflexivity]. intros _. exists c. auto.
    + injection Hstep as <-. apply read_code_raises in Hread. subst e'.
      split; [discriminate|]. intros (c & Hc & _). discriminate.
Qed.

End DecoderMore.

Lemma known_code_emits_entry_witness :
  (exists s',
     lzw_step minimal_colours 2 minimal_stream minimal_after_clear
     = Ok (Continue s') /\
     image_data s' = image_data minimal_after_clear ++ [black] /\
     code_table s' = Some (fresh_code_table minimal_colours) /\
     first s' = Some false /\
     previous_code s' = Some 0) /\
  (exists s',
     lzw_step minimal_colours 2 minimal_stream minimal_after_first
     = Ok (Continue s') /\
     image_data s' = image_data minimal_after_first ++ [red] /\
     code_table s'
     = Some (fresh_code_table minimal_colours ++ [PList ([black] ++ [red])]) /\
     first s' = Some false /\
     previous_code s' = Some 1) /\
  lzw_step minimal_colours 3 overshoot_known_stream overshoot_after_8
  = Raise IndexError.
Proof.
  split; [|split].
  - refine (proj1 (known_code_emits_entry minimal_colours 2 minimal_stream
                     minimal_after_clear 0 (fresh_code_table minimal_colours)
                     [black] _ _ _ _ _ _) _);
      first [reflexivity | cbv; discriminate].
  - refine (proj1 (proj2 (known_code_emits_entry minimal_colours 2 minimal_stream
                     minimal_after_first 1 (fresh_code_table minimal_colours)
                     [red] _ _ _ _ _ _)) 0 [black] red [] _ _ _ _);
      first [reflexivity | cbv; discriminate].
  - refine (proj2 (proj2 (known_code_emits_entry minimal_colours 3
                     overshoot_known_stream overshoot_after_8 0
                     (fresh_code_table minimal_colours ++ [PList [black; black]])
                     [black] _ _ _ _ _ _)) 8 black [] _ _ _ _);
      first [reflexivity | cbv; discriminate].
Defined.

Example minimal_run_2 :
  lzw_run minimal_colours 2 minimal_stream 2 (init_state 2)
  = Some minimal_after_first.
Proof. reflexivity. Qed.

Example overshoot_known_run_3 :
  lzw_run minimal_colours 3 overshoot_known_stream 3 (init_state 3)
  = Some overshoot_after_8.
Proof. reflexivity. Qed.

Lemma decoder_output_grows_witness :
  exists emitted,
    [black; red; green; blue] = image_data minimal_after_three ++ emitted.
Proof.
  apply (decoder_output_grows minimal_colours 2 minimal_stream 3
           minimal_after_three [black; red; green; blue]).
  reflexivity.
Defined.

Lemma NameError_iff_unprimed_witness :
  lzw_decode minimal_colours 2 (str_lit "000000100010110010100000")
  = Some (Raise NameError).
Proof.
  apply (proj2 (NameError_iff_unprimed minimal_colours 2
                  (str_lit "000000100010110010100000"))).
  exists 0. repeat split; [cbv; discriminate | cbv; discriminate].
Defined.

(** ** The code width and the size of the code table *)

Section WidthTracking.

Variable gc_map : list pyval.
Variable min_code_size : Z.
Variable data_stream : str.
Hypothesis table_is_power : len gc_map = 2 ^ min_code_size.
Hypothesis min_code_size_pos : 1 <= min_code_size.

Lemma pow2_min_code_size : 2 <= 2 ^ min_code_size.
Proof.
  change 2 with (2 ^ 1) at 1. apply Z.pow_le_mono_r; lia.
Qed.

Lemma pow2_double (k : Z) : 1 <= k -> 2 ^ k = 2 * 2 ^ (k - 1).
Proof.
  intros Hk. replace k with (Z.succ (k - 1)) at 1 by lia.
  apply Z.pow_succ_r. lia.
Qed.

Lemma fresh_code_table_at_cc :
  py_index (fresh_code_table gc_map) (cc_index gc_map)
  = Ok (PStr (str_lit "CC")).
Proof.
  unfold cc_index. pose proof (len_nonneg gc_map).
  rewrite py_index_nonneg by assumption. unfold fresh_code_table.
  rewrite nth_error_app2 by (rewrite length_map; unfold len; lia).
  replace (Z.to_nat (len gc_map) - List.length (map (fun c => PList [c]) gc_map))%nat
    with 0%nat by (rewrite length_map; unfold len; lia).
  reflexivity.
Qed.

(** The tail of the loop body keeps the table length equal to
    [2 ** (code_size - 1) + count]. *)
Lemma lzw_bookkeeping_tracks s1 c n :
  1 <= code_size s1 ->
  0 <= count s1 ->
  count s1 + 1 <= 2 ^ (code_size s1 - 1) ->
  n = 2 ^ (code_size s1 - 1) + count s1 + 1 ->
  1 <= code_size (lzw_bookkeeping s1 c) /\
  0 <= count (lzw_bookkeeping s1 c)
    < 2 ^ (code_size (lzw_bookkeeping s1 c) - 1) /\
  n = 2 ^ (code_size (lzw_bookkeeping s1 c) - 1) + count (lzw_bookkeeping s1 c).
Proof.
  intros Hsize Hcount Hroom Hn.
  destruct (lzw_bookkeeping_code_size s1 c) as [(-> & -> & _ & Hfull)|(-> & -> & Hnot)].
  - replace (code_size s1 + 1 - 1) with (code_size s1) by lia.
    rewrite (pow2_double (code_size s1)) by assumption. lia.
  - assert (count s1 + 1 <> 2 ^ (code_size s1 - 1)) by (intros Heq; apply Hnot; auto).
    lia.
Qed.

Lemma lzw_branch_tracks s c s1 :
  width_tracks_table gc_map min_code_size s ->
  c <> cc_index gc_map ->
  lzw_branch gc_map min_code_size (advance s) c = Ok (Continue s1) ->
  exists table1,
    code_table s1 = Some table1 /\ first s1 = Some false /\
    1 <= code_size s1 /\ 0 <= count s1 /\
    count s1 + 1 <= 2 ^ (code_size s1 - 1) /\
    len table1 = 2 ^ (code_size s1 - 1) + count s1 + 1.
Proof.
  intros (table & Htable & Hcase) Hc Hb.
  pose proof pow2_min_code_size as Hpow.
  unfold lzw_branch in Hb.
  destruct (Z.eqb_spec c (cc_index gc_map)); [contradiction|].
  destruct (c =? cc_index gc_map + 1); [discriminate|].
  cbn [advance code_table first previous_code image_data count code_size start_b] in Hb.
  rewrite Htable in Hb. cbn [load bind] in Hb.
  destruct Hcase as [(Hfirst & -> & Hprev & Hcount & Hsize)
                    |(Hfirst & Hsize & Hcount & Hlen)];
    rewrite Hfirst in Hb; cbn [load bind] in Hb.
  - rewrite Hprev in Hb. cbn [load bind] in Hb.
    rewrite fresh_code_table_at_cc in Hb.
    destruct (c <? len (fresh_code_table gc_map)).
    + bind_cases Hb. injection Hb as <-.
      eexists. split; [reflexivity|]. cbn.
      rewrite Hsize, Hcount, fresh_code_table_len, table_is_power.
      replace (min_code_size + 1 - 1) with min_code_size by lia.
      repeat split; lia.
    + cbn in Hb. discriminate.
  - destruct (c <? len table); bind_cases Hb; injection Hb as <-;
      (eexists; split; [reflexivity|]); cbn; rewrite len_app;
      change (len [_]) with 1; repeat split; lia.
Qed.

Lemma lzw_step_tracks s s' :
  code_table s = None \/ width_tracks_table gc_map min_code_size s ->
  lzw_step gc_map min_code_size data_stream s = Ok (Continue s') ->
  width_tracks_table gc_map min_code_size s'.
Proof.
  intros Hs Hstep. pose proof pow2_min_code_size as Hpow.
  apply lzw_step_continue in Hstep as (c & s1 & _ & Hb & ->).
  destruct (Z.eq_dec c (cc_index gc_map)) as [->|Hc].
  - rewrite lzw_branch_clear in Hb. injection Hb as <-.
    match goal with
    | |- width_tracks_table _ _ (lzw_bookkeeping ?s1 ?c) =>
        destruct (lzw_bookkeeping_rest s1 c) as (_ & Ht & Hf & Hp & _);
        destruct (lzw_bookkeeping_code_size s1 c)
          as [(_ & _ & _ & Hfull)|(Hsize & Hcount & _)];
        cbn [code_size count code_table first] in *
    end.
    + replace (min_code_size + 1 - 1) with min_code_size in Hfull by lia. lia.
    + eexists. split; [exact Ht|]. left. auto.
  - destruct Hs as [Hnone|Htracks].
    { unfold lzw_branch in Hb.
      destruct (Z.eqb_spec c (cc_index gc_map)); [contradiction|].
      destruct (c =? cc_index gc_map + 1); [discriminate|].
      cbn [advance code_table] in Hb. rewrite Hnone in Hb. discriminate. }
    destruct (lzw_branch_tracks _ _ _ Htracks Hc Hb)
      as (table1 & Ht1 & Hf1 & Hsize & Hcount & Hroom & Hlen).
    destruct (lzw_bookkeeping_rest s1 c) as (_ & Ht & Hf & _).
    exists table1. split; [congruence|]. right.
    split; [congruence|].
    apply lzw_bookkeeping_tracks; assumption.
Qed.

Lemma lzw_run_tracks (n : nat) : forall s0 s,
  code_table s0 = None \/ width_tracks_table gc_map min_code_size s0 ->
  lzw_run gc_map min_code_size data_stream n s0 = Some s ->
  code_table s = None \/ width_tracks_table gc_map min_code_size s.
Proof.
  induction n as [|n IH]; intros s0 s Hs0 Hrun; cbn [lzw_run] in Hrun.
  - injection Hrun as <-. exact Hs0.
  - destruct (lzw_step gc_map min_code_size data_stream s0) as [[s1|]|] eqn:Hstep;
      try discriminate.
    apply (IH s1); [|exact Hrun]. right. eapply lzw_step_tracks; eassumption.
Qed.

(** For a colour table of [2 ** min_code_size] entries, the code width
    stays in step with the code table in every state the decoder
    reaches: once the first code after a Clear has been processed the
    table holds [2 ** (code_size - 1) + count] entries with
    [count < 2 ** (code_size - 1)], hence fewer than [2 ** code_size],
    so that every code of the table and the next one to be assigned can
    be written in [code_size] bits. *)
Theorem code_width_tracks_table (n : nat) (s : lzw_state) (table : list pyval) :
  lzw_run gc_map min_code_size data_stream n (init_state min_code_size) = Some s ->
  code_table s = Some table ->
  width_tracks_table gc_map min_code_size s /\
  len table <= 2 ^ code_size s /\
  (first s = Some false ->
   len table = 2 ^ (code_size s - 1) + count s /\
   2 ^ (code_size s - 1) <= len table < 2 ^ code_size s).
Proof.
  intros Hrun Htable. pose proof pow2_min_code_size as Hpow.
  apply lzw_run_tracks in Hrun; [|left; reflexivity].
  destruct Hrun as [Hnone|Htracks]; [congruence|].
  split; [exact Htracks|].
  destruct Htracks as (table' & Htable' & Hcase).
  rewrite Htable in Htable'. injection Htable' as <-.
  destruct Hcase as [(Hfirst & -> & _ & _ & Hsize)|(Hfirst & Hsize & Hcount & Hlen)].
  - rewrite fresh_code_table_len, table_is_power, Hsize.
    rewrite (pow2_double (min_code_size + 1)) by lia.
    replace (min_code_size + 1 - 1) with min_code_size by lia.
    split; [lia|]. rewrite Hfirst. discriminate.
  - rewrite (pow2_double (code_size s)) by assumption.
    split; [lia|]. intros _. split; [exact Hlen | lia].
Qed.

End WidthTracking.

Lemma code_width_tracks_table_witness :
  width_tracks_table minimal_colours 2 minimal_after_three /\
  len (fresh_code_table minimal_colours
       ++ [PList [black; red]; PList [red; green]])
  <= 2 ^ code_size minimal_after_three /\
  (first minimal_after_three = Some false ->
   len (fresh_code_table minimal_colours
        ++ [PList [black; red]; PList [red; green]])
   = 2 ^ (code_size minimal_after_three - 1) + count minimal_after_three /\
   2 ^ (code_size minimal_after_three - 1)
   <= len (fresh_code_table minimal_colours
           ++ [PList [black; red]; PList [red; green]])
   < 2 ^ code_size minimal_after_three).
Proof.
  apply (code_width_tracks_table minimal_colours 2 minimal_stream
           eq_refl ltac:(lia) 4 minimal_after_three).
  - reflexivity.
  - reflexivity.
Defined.

(** ** The returned image *)

Lemma find_from_lower (b : byte) (l : bytes) : forall i,
  -1 <= i -> -1 <= find_from b l i.
Proof.
  induction l as [|x l IH]; intros i Hi; cbn [find_from]; [lia|].
  destruct (Byte.eqb x b); [lia | apply IH; lia].
Qed.

Lemma image_descriptor_at_sizes (data : bytes) (start : Z) (d : image_descriptor) :
  -1 <= start ->
  image_descriptor_at data start = Ok d ->
  0 <= id_left d < 65536 /\ 0 <= id_top d < 65536 /\
  0 <= id_width d < 65536 /\ 0 <= id_height d < 65536.
Proof.
  intros Hstart Hd. rewrite image_descriptor_at_packed in Hd.
  destruct (py_index data (start + 9)) as [b9|]; [|discriminate].
  cbn [bind] in Hd.
  destruct (packed_image_fields b9); [|discriminate]. cbn [bind] in Hd.
  injection Hd as <-. cbn [id_left id_top id_width id_height].
  repeat apply conj; apply int_from_bytes_little_two;
    (eapply Nat.le_trans; [apply py_slice_length; lia|]; lia).
Qed.

Lemma extract_image_descriptor_sizes (data : bytes) (d : image_descriptor) :
  extract_image_descriptor data = Ok d ->
  0 <= id_left d < 65536 /\ 0 <= id_top d < 65536 /\
  0 <= id_width d < 65536 /\ 0 <= id_height d < 65536.
Proof.
  unfold extract_image_descriptor.
  destruct (extract_screen_descriptor data) as [sd|]; [|discriminate].
  intros Hd.
  apply (image_descriptor_at_sizes data
           (bytes_find image_separator data (13 + table_size_of sd)));
    [|exact Hd].
  unfold bytes_find. apply find_from_lower. lia.
Qed.

(** Whenever [extract_image] returns an image, every row of it has
    exactly the width announced by the image descriptor and every pixel
    is an entry of the global colour table; with a width of 0 the image
    can only be empty. *)
Theorem extract_image_rows (data : bytes) (image : list (list pyval)) :
  extract_image data = Some (Ok image) ->
  exists gc_map idesc,
    extract_global_colour_table data = Ok gc_map /\
    extract_image_descriptor data = Ok idesc /\
    Forall (fun row => len row = id_width idesc /\
                       Forall (is_table_colour gc_map) row) image /\
    (id_width idesc = 0 -> image = []).
Proof.
  unfold extract_image. intros H.
  destruct (image_data_stream data) as [[mcs stream]|]; [|discriminate].
  destruct (extract_global_colour_table data) as [gc_map|]; [|discriminate].
  destruct (lzw_decode gc_map mcs stream) as [[out|]|] eqn:Hdec; try discriminate.
  destruct (extract_image_descriptor data) as [idesc|] eqn:Hdesc; [|discriminate].
  cbn [bind] in H. injection H as H.
  exists gc_map, idesc. split; [reflexivity|]. split; [reflexivity|].
  unfold lzw_decode in Hdec.
  apply lzw_loop_emits in Hdec; [|apply init_state_emits].
  destruct (extract_image_descriptor_sizes _ _ Hdesc) as (_ & _ & [Hw _] & _).
  destruct (Z.eq_dec (id_width idesc) 0) as [Hzero|Hpos].
  - rewrite Hzero in *. unfold reshape in H.
    destruct out as [|x out]; cbn in H; [|discriminate].
    injection H as <-. split; [constructor | reflexivity].
  - split; [|contradiction].
    destruct (reshape_loop_rows (id_width idesc) ltac:(lia) out 1 [] [])
      as (rows & leftover & Hloop & Hrows & Hcat & _).
    { cbn. lia. }
    { exists 0. cbn. lia. }
    unfold reshape in H. rewrite Hloop in H. injection H as <-.
    cbn [app] in *. apply Forall_forall. intros row Hrow.
    rewrite Forall_forall in Hrows. split; [apply Hrows; exact Hrow|].
    apply Forall_forall. intros x Hx. apply In_is_table_colour.
    rewrite Forall_forall in Hdec. apply Hdec. rewrite <- Hcat.
    apply in_or_app. left. apply in_concat. eauto.
Qed.

Lemma extract_image_rows_witness :
  exists gc_map idesc,
    extract_global_colour_table minimal_gif = Ok gc_map /\
    extract_image_descriptor minimal_gif = Ok idesc /\
    Forall (fun row => len row = id_width idesc /\
                       Forall (is_table_colour gc_map) row)
           [[black; red]; [green; blue]] /\
    (id_width idesc = 0 -> [[black; red]; [green; blue]] = []).
Proof.
  apply (extract_image_rows minimal_gif [[black; red]; [green; blue]]).
  reflexivity.
Defined.

(** ** Uncompressed streams *)

Section Literals.

Variable gc_map : list pyval.
Variable min_code_size : Z.
Hypothesis min_code_size_nonneg : 0 <= min_code_size.
Hypothesis sentinels_fit : len gc_map + 2 <= 2 ^ (min_code_size + 1).








End Literals.


Example minimal_stream_is_literal :
  encode_literals minimal_colours 2 [0; 1; 2; 3] ++ str_lit "0000"
  = minimal_stream.
Proof. reflexivity. Qed.
